(** * A replicated key-value store node: coordinator and replica handlers

    Shallow embedding of [src/solution/node.py] (class [StorageNode] and the
    placement helpers [get_key_replicas], [get_next_replica]) and the
    properties of the specification that are checked against it.

    Conventions of the embedding.
    - Python [str] values are modelled by their UTF-8 byte strings
      ([string]); Python compares strings code point by code point, which is
      the byte-wise lexicographic order of the UTF-8 encodings.
    - [None] (the tombstone) is [None : option string].
    - Timestamps are the values of the environment clock.  The code only
      compares them with [>], [==], [<] and against the sentinel [-1.0];
      they are modelled by [Z] with the sentinel [-1].
    - Python [int]s are [Z].
    - The [responses] dict of a pending request is iterated by the
      finalizers, so its insertion order is observable: it is an association
      list with in-place update.  The store and the pending table are only
      looked up, inserted into and popped: they are [gmap]s.
    - A handler returns [None] where the Python code raises, and otherwise
      the new node together with the messages it sent, in order. *)

From Stdlib Require Import ZArith Lia List Bool String Ascii.
From Stdlib Require Import OrdersEx DecimalString DecimalPos DecimalZ.
From stdpp Require Import gmap strings list fin_maps.

Set Warnings "-clear-no-such-hyp".

Local Open Scope string_scope.
Local Open Scope Z_scope.

(** ** Data model *)

Abbreviation NodeId := string (only parsing).
Abbreviation Key := string (only parsing).
Abbreviation Value := (option string) (only parsing).
Abbreviation Timestamp := Z (only parsing).
Abbreviation Cell := (option string * Z)%type (only parsing).

(** [self._data.get(key, (None, -1.0))] *)
Definition data_get (data : gmap Key Cell) (key : Key) : Cell :=
  default (None, -1) (data !! key).

(** Python's [a > b] on [str]. *)
Definition str_gt (a b : string) : bool :=
  match String_as_OT.compare a b with
  | Gt => true
  | _ => false
  end.

(** Python's [a != b] on values that are [str] or [None]. *)
Definition value_ne (a b : Value) : bool :=
  if decide (a = b) then false else true.

(** ** The replica-side merge

    [_handle_replica_put_req] and [_handle_replica_read_repair] compute the
    same flag [should_update] from the incoming cell and the stored one. *)

Definition should_update (value : Value) (timestamp : Timestamp)
    (current_value : Value) (current_timestamp : Timestamp) : bool :=
  if timestamp >? current_timestamp then true
  else if timestamp =? current_timestamp then
    match value, current_value with
    | Some v, Some cv => str_gt v cv
    | Some _, None => true
    | None, _ => false
    end
  else false.

(** The cell a replica holds after it has processed an incoming cell
    [(value, timestamp)] against the stored cell [current]:
    [if should_update: self._data[key] = (value, timestamp)]. *)
Definition merge (incoming current : Cell) : Cell :=
  if should_update incoming.1 incoming.2 current.1 current.2
  then incoming else current.

(** ** The order of section 4.2 on cells, as a boolean comparison *)

Definition value_lt (a b : Value) : bool :=
  match a, b with
  | None, None => false
  | None, Some _ => true
  | Some _, None => false
  | Some x, Some y => str_gt y x
  end.

Definition cell_lt (a b : Cell) : bool :=
  (a.2 <? b.2) || ((a.2 =? b.2) && value_lt a.1 b.1).

Definition cell_le (a b : Cell) : bool :=
  cell_lt a b || bool_decide (a = b).

(** ** Placement

    [hashlib.md5] is the MD5 function of RFC 1321, written out here on bytes
    held as [Z] in [0, 256). *)

Module MD5.

Definition K : list Z :=
  [ 0xd76aa478; 0xe8c7b756; 0x242070db; 0xc1bdceee; 0xf57c0faf; 0x4787c62a;
    0xa8304613; 0xfd469501; 0x698098d8; 0x8b44f7af; 0xffff5bb1; 0x895cd7be;
    0x6b901122; 0xfd987193; 0xa679438e; 0x49b40821; 0xf61e2562; 0xc040b340;
    0x265e5a51; 0xe9b6c7aa; 0xd62f105d; 0x02441453; 0xd8a1e681; 0xe7d3fbc8;
    0x21e1cde6; 0xc33707d6; 0xf4d50d87; 0x455a14ed; 0xa9e3e905; 0xfcefa3f8;
    0x676f02d9; 0x8d2a4c8a; 0xfffa3942; 0x8771f681; 0x6d9d6122; 0xfde5380c;
    0xa4beea44; 0x4bdecfa9; 0xf6bb4b60; 0xbebfbc70; 0x289b7ec6; 0xeaa127fa;
    0xd4ef3085; 0x04881d05; 0xd9d4d039; 0xe6db99e5; 0x1fa27cf8; 0xc4ac5665;
    0xf4292244; 0x432aff97; 0xab9423a7; 0xfc93a039; 0x655b59c3; 0x8f0ccc92;
    0xffeff47d; 0x85845dd1; 0x6fa87e4f; 0xfe2ce6e0; 0xa3014314; 0x4e0811a1;
    0xf7537e82; 0xbd3af235; 0x2ad7d2bb; 0xeb86d391 ].

Definition shifts : list Z :=
  [ 7; 12; 17; 22; 7; 12; 17; 22; 7; 12; 17; 22; 7; 12; 17; 22;
    5; 9; 14; 20; 5; 9; 14; 20; 5; 9; 14; 20; 5; 9; 14; 20;
    4; 11; 16; 23; 4; 11; 16; 23; 4; 11; 16; 23; 4; 11; 16; 23;
    6; 10; 15; 21; 6; 10; 15; 21; 6; 10; 15; 21; 6; 10; 15; 21 ].

Definition wrap32 (x : Z) : Z := x mod 2 ^ 32.
Definition not32 (x : Z) : Z := Z.lxor x 0xffffffff.
Definition rotl32 (x c : Z) : Z :=
  Z.lor (wrap32 (Z.shiftl x c)) (Z.shiftr x (32 - c)).

(** Little-endian reading of a byte list, and writing of [n] bytes. *)
Definition from_le (bs : list Z) : Z :=
  foldr (fun b acc => b + 256 * acc) 0 bs.

Fixpoint to_le (n : nat) (x : Z) : list Z :=
  match n with
  | O => []
  | S n' => (x mod 256) :: to_le n' (x / 256)
  end.

(** Padding: a [0x80] byte, zeros up to 56 modulo 64, the bit length on
    eight bytes. *)
Definition pad (msg : list Z) : list Z :=
  let len := Z.of_nat (length msg) in
  let zeros := Z.to_nat ((55 - len) mod 64) in
  msg ++ [0x80] ++ repeat 0 zeros ++ to_le 8 ((8 * len) mod 2 ^ 64).

Fixpoint words (n : nat) (bs : list Z) : list Z :=
  match n with
  | O => []
  | S n' => from_le (take 4 bs) :: words n' (drop 4 bs)
  end.

Definition round (M : list Z) (st : Z * Z * Z * Z) (i : nat) : Z * Z * Z * Z :=
  let '(A, B, C, D) := st in
  let iz := Z.of_nat i in
  let '(F, g) :=
    if iz <? 16 then (Z.lor (Z.land B C) (Z.land (not32 B) D), iz)
    else if iz <? 32 then
      (Z.lor (Z.land D B) (Z.land (not32 D) C), (5 * iz + 1) mod 16)
    else if iz <? 48 then (Z.lxor (Z.lxor B C) D, (3 * iz + 5) mod 16)
    else (Z.lxor C (Z.lor B (not32 D)), (7 * iz) mod 16) in
  let F' := wrap32 (F + A + nth i K 0 + nth (Z.to_nat g) M 0) in
  (D, wrap32 (B + rotl32 F' (nth i shifts 0)), B, C).

Definition block (st : Z * Z * Z * Z) (chunk : list Z) : Z * Z * Z * Z :=
  let '(a0, b0, c0, d0) := st in
  let '(A, B, C, D) := fold_left (round (words 16 chunk)) (seq 0 64) st in
  (wrap32 (a0 + A), wrap32 (b0 + B), wrap32 (c0 + C), wrap32 (d0 + D)).

Fixpoint blocks (n : nat) (st : Z * Z * Z * Z) (bs : list Z) : Z * Z * Z * Z :=
  match n with
  | O => st
  | S n' => blocks n' (block st (take 64 bs)) (drop 64 bs)
  end.

(** [hashlib.md5(data).digest()]: the 16 bytes of the digest. *)
Definition digest (msg : list Z) : list Z :=
  let p := pad msg in
  let '(a, b, c, d) :=
    blocks (length p / 64)%nat
      (0x67452301, 0xefcdab89, 0x98badcfe, 0x10325476) p in
  to_le 4 a ++ to_le 4 b ++ to_le 4 c ++ to_le 4 d.

End MD5.

(** [key.encode('utf8')]: the bytes of the key. *)
Definition encode (key : Key) : list Z :=
  map (fun c => Z.of_N (N_of_ascii c)) (list_ascii_of_string key).

(** [int.from_bytes(hashlib.md5(key.encode('utf8')).digest(), 'little',
    signed=False)] *)
Definition key_hash (key : Key) : Z := MD5.from_le (MD5.digest (encode key)).

(** Python's [str] on an [int]. *)
Definition str (i : Z) : string := NilZero.string_of_int (Z.to_int i).

Definition get_next_replica (i node_count : Z) : Z := (i + 1) mod node_count.

(** The loop body of [get_key_replicas], on the pair [(replicas, cur)]. *)
Definition replicas_step (node_count : Z) (st : list NodeId * Z)
    : list NodeId * Z :=
  let '(replicas, cur) := st in
  ((replicas ++ [str cur])%list, get_next_replica cur node_count).

(** [get_key_replicas]; [None] is the [ZeroDivisionError] of
    [key_hash % node_count] for [node_count = 0]. *)
Definition get_key_replicas (key : Key) (node_count : Z)
    : option (list NodeId) :=
  if node_count =? 0 then None
  else
    let cur := key_hash key mod node_count in
    Some (Nat.iter 3 (replicas_step node_count) ([], cur)).1.

(** Python's [sorted] on a list of [str] (the result does not depend on the
    sorting algorithm: the order is total and its equality is identity). *)
Fixpoint insert_sorted (x : string) (l : list string) : list string :=
  match l with
  | [] => [x]
  | y :: l' => if str_gt x y then y :: insert_sorted x l' else x :: l
  end.

Definition sorted (l : list string) : list string := foldr insert_sorted [] l.

(** ** Messages and effects *)

Inductive Operation := OpGET | OpPUT | OpDELETE.

Inductive Message :=
| GET (key : Key) (quorum : Z)
| PUT (key : Key) (value : string) (quorum : Z)
| DELETE (key : Key) (quorum : Z)
| GET_RESP (key : Key) (value : Value)
| PUT_RESP (key : Key) (value : Value)
| DELETE_RESP (key : Key) (value : Value)
| REPLICA_GET_REQ (key : Key) (request_id : Z) (coordinator : NodeId)
| REPLICA_GET_RESP (key : Key) (value : Value) (timestamp : Timestamp)
    (request_id : Z) (replica : NodeId)
| REPLICA_PUT_REQ (key : Key) (value : Value) (request_id : Z)
    (coordinator : NodeId) (timestamp : Timestamp)
| REPLICA_PUT_RESP (key : Key) (value : Value) (timestamp : Timestamp)
    (request_id : Z) (replica : NodeId)
| REPLICA_DELETE_REQ (key : Key) (request_id : Z) (coordinator : NodeId)
    (timestamp : Timestamp)
| REPLICA_DELETE_RESP (key : Key) (value : Value) (timestamp : Timestamp)
    (request_id : Z) (replica : NodeId)
| REPLICA_READ_REPAIR (key : Key) (value : Value) (timestamp : Timestamp).

(** What a handler does through its context: [ctx.send(msg, dst)] and
    [ctx.send_local(msg)]. *)
Inductive Action :=
| Send (msg : Message) (dst : NodeId)
| SendLocal (msg : Message).

(** ** Node state *)

(** [d[k] = v] on a dict kept in insertion order: an existing key keeps its
    position, a new key goes last. *)
Fixpoint dict_set {V : Type} (k : NodeId) (v : V) (d : list (NodeId * V))
    : list (NodeId * V) :=
  match d with
  | [] => [(k, v)]
  | (k', v') :: d' =>
      if decide (k' = k) then (k, v) :: d' else (k', v') :: dict_set k v d'
  end.

Fixpoint dict_get {V : Type} (k : NodeId) (d : list (NodeId * V)) : option V :=
  match d with
  | [] => None
  | (k', v') :: d' => if decide (k' = k) then Some v' else dict_get k d'
  end.

(** The record kept in [self._pending_requests]; the fields [value] and
    [timestamp] are present for a PUT, [timestamp] also for a DELETE. *)
Module PendingRequest.
Record t := mk {
  operation : Operation;
  key : Key;
  value : option string;
  replicas : list NodeId;
  quorum : Z;
  responses : list (NodeId * Cell);
  timestamp_sent : Timestamp;
  timestamp : option Timestamp
}.

Definition set_responses (rs : list (NodeId * Cell)) (p : t) : t :=
  mk (operation p) (key p) (value p) (replicas p) (quorum p) rs
     (timestamp_sent p) (timestamp p).
End PendingRequest.

Record StorageNode := mkNode {
  _id : NodeId;
  _nodes : list NodeId;
  _node_count : Z;
  _data : gmap Key Cell;
  _pending_requests : gmap Z PendingRequest.t;
  _request_counter : Z
}.

Definition set_data (d : gmap Key Cell) (self : StorageNode) : StorageNode :=
  mkNode (_id self) (_nodes self) (_node_count self) d
         (_pending_requests self) (_request_counter self).

Definition set_pending_requests (p : gmap Z PendingRequest.t)
    (self : StorageNode) : StorageNode :=
  mkNode (_id self) (_nodes self) (_node_count self) (_data self) p
         (_request_counter self).

Definition set_request_counter (c : Z) (self : StorageNode) : StorageNode :=
  mkNode (_id self) (_nodes self) (_node_count self) (_data self)
         (_pending_requests self) c.

(** [StorageNode.__init__] *)
Definition init (node_id : NodeId) (nodes : list NodeId) : StorageNode :=
  mkNode node_id (sorted nodes) (Z.of_nat (length (sorted nodes))) ∅ ∅ 0.

Definition Outcome := option (StorageNode * list Action).

(** ** Coordinator: local requests *)

Definition _handle_local_get (self : StorageNode) (key : Key) (quorum : Z)
    (now : Timestamp) : Outcome :=
  match get_key_replicas key (_node_count self) with
  | None => None
  | Some replicas =>
      let request_id := _request_counter self in
      let self := set_request_counter (request_id + 1) self in
      let self := set_pending_requests
        (<[request_id := PendingRequest.mk OpGET key None replicas quorum []
                           now None]> (_pending_requests self)) self in
      Some (self,
            map (fun replica =>
                   Send (REPLICA_GET_REQ key request_id (_id self)) replica)
                replicas)
  end.

Definition _handle_local_put (self : StorageNode) (key : Key) (value : string)
    (quorum : Z) (now : Timestamp) : Outcome :=
  match get_key_replicas key (_node_count self) with
  | None => None
  | Some replicas =>
      let request_id := _request_counter self in
      let self := set_request_counter (request_id + 1) self in
      let timestamp := now in
      let self := set_pending_requests
        (<[request_id := PendingRequest.mk OpPUT key (Some value) replicas
                           quorum [] timestamp (Some timestamp)]>
           (_pending_requests self)) self in
      Some (self,
            map (fun replica =>
                   Send (REPLICA_PUT_REQ key (Some value) request_id
                           (_id self) timestamp) replica)
                replicas)
  end.

Definition _handle_local_delete (self : StorageNode) (key : Key) (quorum : Z)
    (now : Timestamp) : Outcome :=
  match get_key_replicas key (_node_count self) with
  | None => None
  | Some replicas =>
      let request_id := _request_counter self in
      let self := set_request_counter (request_id + 1) self in
      let timestamp := now in
      let self := set_pending_requests
        (<[request_id := PendingRequest.mk OpDELETE key None replicas quorum
                           [] timestamp (Some timestamp)]>
           (_pending_requests self)) self in
      Some (self,
            map (fun replica =>
                   Send (REPLICA_DELETE_REQ key request_id (_id self)
                           timestamp) replica)
                replicas)
  end.

(** ** Coordinator: the finalizers *)

(** One iteration of the loop that the three finalizers share, on the pair
    [(best_value, best_timestamp)]. *)
Definition best_step (best : Cell) (r : NodeId * Cell) : Cell :=
  let '(best_value, best_timestamp) := best in
  let '(_, (value, timestamp)) := r in
  if timestamp >? best_timestamp then (value, timestamp)
  else if timestamp =? best_timestamp then
    match value, best_value with
    | Some v, Some bv =>
        if str_gt v bv then (value, best_timestamp) else best
    | _, _ => best
    end
  else best.

(** [best_value, best_timestamp] after the loop over
    [pending['responses'].items()]. *)
Definition best_cell (responses : list (NodeId * Cell)) : Cell :=
  fold_left best_step responses (None, -1).

(** The second loop of [_finalize_get]: the read repairs, in order. *)
Definition needs_repair (best : Cell) (c : Cell) : bool :=
  (c.2 <? best.2) || ((c.2 =? best.2) && value_ne c.1 best.1).

Definition repairs (key : Key) (best : Cell)
    (responses : list (NodeId * Cell)) : list Action :=
  flat_map (fun r : NodeId * Cell =>
              if needs_repair best r.2
              then [Send (REPLICA_READ_REPAIR key best.1 best.2) r.1]
              else [])
           responses.

(** [self._pending_requests.pop(request_id)] raises [KeyError] on an
    unknown id. *)
Definition _finalize_get (self : StorageNode) (request_id : Z) : Outcome :=
  match _pending_requests self !! request_id with
  | None => None
  | Some pending =>
      let self :=
        set_pending_requests (delete request_id (_pending_requests self))
          self in
      let key := PendingRequest.key pending in
      let best := best_cell (PendingRequest.responses pending) in
      Some (self,
            (repairs key best (PendingRequest.responses pending)
               ++ [SendLocal (GET_RESP key best.1)])%list)
  end.

Definition _finalize_put (self : StorageNode) (request_id : Z) : Outcome :=
  match _pending_requests self !! request_id with
  | None => None
  | Some pending =>
      let self :=
        set_pending_requests (delete request_id (_pending_requests self))
          self in
      let key := PendingRequest.key pending in
      let best := best_cell (PendingRequest.responses pending) in
      Some (self, [SendLocal (PUT_RESP key best.1)])
  end.

Definition _finalize_delete (self : StorageNode) (request_id : Z) : Outcome :=
  match _pending_requests self !! request_id with
  | None => None
  | Some pending =>
      let self :=
        set_pending_requests (delete request_id (_pending_requests self))
          self in
      let key := PendingRequest.key pending in
      let best := best_cell (PendingRequest.responses pending) in
      Some (self, [SendLocal (DELETE_RESP key best.1)])
  end.

(** ** Coordinator: replica responses *)

(** [pending['responses'][replica] = (value, timestamp)], on the record
    shared with the table. *)
Definition record_response (self : StorageNode) (request_id : Z)
    (pending : PendingRequest.t) (replica : NodeId) (c : Cell)
    : StorageNode * PendingRequest.t :=
  let pending :=
    PendingRequest.set_responses
      (dict_set replica c (PendingRequest.responses pending)) pending in
  (set_pending_requests (<[request_id := pending]> (_pending_requests self))
     self, pending).

Definition quorum_reached (pending : PendingRequest.t) : bool :=
  Z.of_nat (length (PendingRequest.responses pending))
    >=? PendingRequest.quorum pending.

Definition _handle_replica_get_resp (self : StorageNode) (value : Value)
    (timestamp : Timestamp) (request_id : Z) (replica : NodeId) : Outcome :=
  match _pending_requests self !! request_id with
  | None => Some (self, [])
  | Some pending =>
      let '(self, pending) :=
        record_response self request_id pending replica (value, timestamp) in
      if quorum_reached pending then _finalize_get self request_id
      else Some (self, [])
  end.

Definition _handle_replica_put_resp (self : StorageNode) (value : Value)
    (timestamp : Timestamp) (request_id : Z) (replica : NodeId) : Outcome :=
  match _pending_requests self !! request_id with
  | None => Some (self, [])
  | Some pending =>
      match PendingRequest.operation pending with
      | OpPUT =>
          let '(self, pending) :=
            record_response self request_id pending replica
              (value, timestamp) in
          if quorum_reached pending then _finalize_put self request_id
          else Some (self, [])
      | _ => Some (self, [])
      end
  end.

Definition _handle_replica_delete_resp (self : StorageNode) (value : Value)
    (timestamp : Timestamp) (request_id : Z) (replica : NodeId) : Outcome :=
  match _pending_requests self !! request_id with
  | None => Some (self, [])
  | Some pending =>
      match PendingRequest.operation pending with
      | OpDELETE =>
          let '(self, pending) :=
            record_response self request_id pending replica
              (value, timestamp) in
          if quorum_reached pending then _finalize_delete self request_id
          else Some (self, [])
      | _ => Some (self, [])
      end
  end.

(** ** Replica handlers *)

Definition _handle_replica_get_req (self : StorageNode) (key : Key)
    (request_id : Z) (coordinator : NodeId) : Outcome :=
  let '(value, timestamp) := data_get (_data self) key in
  Some (self,
        [Send (REPLICA_GET_RESP key value timestamp request_id (_id self))
           coordinator]).

Definition _handle_replica_read_repair (self : StorageNode) (key : Key)
    (value : Value) (timestamp : Timestamp) : Outcome :=
  let '(current_value, current_timestamp) := data_get (_data self) key in
  if should_update value timestamp current_value current_timestamp
  then Some (set_data (<[key := (value, timestamp)]> (_data self)) self, [])
  else Some (self, []).

Definition _handle_replica_put_req (self : StorageNode) (key : Key)
    (value : Value) (request_id : Z) (coordinator : NodeId)
    (timestamp : Timestamp) : Outcome :=
  let '(current_value, current_timestamp) := data_get (_data self) key in
  if should_update value timestamp current_value current_timestamp
  then
    Some (set_data (<[key := (value, timestamp)]> (_data self)) self,
          [Send (REPLICA_PUT_RESP key value timestamp request_id (_id self))
             coordinator])
  else
    Some (self,
          [Send (REPLICA_PUT_RESP key current_value current_timestamp
                   request_id (_id self)) coordinator]).

Definition _handle_replica_delete_req (self : StorageNode) (key : Key)
    (request_id : Z) (coordinator : NodeId) (timestamp : Timestamp)
    : Outcome :=
  let '(current_value, current_timestamp) := data_get (_data self) key in
  Some (set_data (<[key := (None, timestamp)]> (_data self)) self,
        [Send (REPLICA_DELETE_RESP key current_value current_timestamp
                 request_id (_id self)) coordinator]).

(** ** Dispatch *)

(** [on_local_message]; [now] is what [ctx.time()] returns. *)
Definition on_local_message (self : StorageNode) (msg : Message)
    (now : Timestamp) : Outcome :=
  match msg with
  | GET key quorum => _handle_local_get self key quorum now
  | PUT key value quorum => _handle_local_put self key value quorum now
  | DELETE key quorum => _handle_local_delete self key quorum now
  | _ => Some (self, [])
  end.

(** [on_message]; no handler reads [sender]. *)
Definition on_message (self : StorageNode) (msg : Message) (sender : NodeId)
    : Outcome :=
  match msg with
  | REPLICA_GET_REQ key request_id coordinator =>
      _handle_replica_get_req self key request_id coordinator
  | REPLICA_GET_RESP key value timestamp request_id replica =>
      _handle_replica_get_resp self value timestamp request_id replica
  | REPLICA_PUT_REQ key value request_id coordinator timestamp =>
      _handle_replica_put_req self key value request_id coordinator timestamp
  | REPLICA_PUT_RESP key value timestamp request_id replica =>
      _handle_replica_put_resp self value timestamp request_id replica
  | REPLICA_DELETE_REQ key request_id coordinator timestamp =>
      _handle_replica_delete_req self key request_id coordinator timestamp
  | REPLICA_DELETE_RESP key value timestamp request_id replica =>
      _handle_replica_delete_resp self value timestamp request_id replica
  | REPLICA_READ_REPAIR key value timestamp =>
      _handle_replica_read_repair self key value timestamp
  | _ => Some (self, [])
  end.

(** [on_timer] does nothing. *)
Definition on_timer (self : StorageNode) (timer_name : string) : Outcome :=
  Some (self, []).

(** An input of the node: a client message with the clock reading, or a
    peer message with its sender. *)
Inductive Event :=
| Local (msg : Message) (now : Timestamp)
| Peer (msg : Message) (sender : NodeId).

Definition handle (self : StorageNode) (ev : Event) : Outcome :=
  match ev with
  | Local msg now => on_local_message self msg now
  | Peer msg sender => on_message self msg sender
  end.

(** Running a list of events, collecting what was sent; it stops with
    [None] at the first handler that raises. *)
Fixpoint run (self : StorageNode) (evs : list Event) : Outcome :=
  match evs with
  | [] => Some (self, [])
  | ev :: evs' =>
      match handle self ev with
      | None => None
      | Some (self', out) =>
          match run self' evs' with
          | None => None
          | Some (self'', out') => Some (self'', (out ++ out')%list)
          end
      end
  end.

(** ** The specification's words, for comparison with the code *)

(** Section 4.2: the winner of two cells. *)
Definition spec_winner (a b : Cell) : Cell := if cell_lt a b then b else a.

(** Section 4.1: [replicas_of(key, nodes)], reading the entries of the
    sorted node list at [H mod N], [(H+1) mod N], [(H+2) mod N]. *)
Definition replicas_of_spec (key : Key) (nodes : list NodeId) : list NodeId :=
  let H := key_hash key in
  let s := sorted nodes in
  let N := Z.of_nat (length s) in
  [ nth (Z.to_nat (H mod N)) s EmptyString;
    nth (Z.to_nat ((H + 1) mod N)) s EmptyString;
    nth (Z.to_nat ((H + 2) mod N)) s EmptyString ].

(** ** The handlers seen uniformly *)

(** The request id, the replica and the cell a [REPLICA_*_RESP] carries. *)
Definition response_of (msg : Message)
    : option (Operation * Z * NodeId * Cell) :=
  match msg with
  | REPLICA_GET_RESP _ value timestamp request_id replica =>
      Some (OpGET, request_id, replica, (value, timestamp))
  | REPLICA_PUT_RESP _ value timestamp request_id replica =>
      Some (OpPUT, request_id, replica, (value, timestamp))
  | REPLICA_DELETE_RESP _ value timestamp request_id replica =>
      Some (OpDELETE, request_id, replica, (value, timestamp))
  | _ => None
  end.

(** The test a response handler makes on the pending record:
    [_handle_replica_put_resp] and [_handle_replica_delete_resp] compare the
    operation, [_handle_replica_get_resp] does not. *)
Definition accepted (op : Operation) (pending : PendingRequest.t) : bool :=
  match op, PendingRequest.operation pending with
  | OpGET, _ => true
  | OpPUT, OpPUT => true
  | OpDELETE, OpDELETE => true
  | _, _ => false
  end.

(** The finalizer a response handler calls. *)
Definition finalizer (op : Operation) : StorageNode -> Z -> Outcome :=
  match op with
  | OpGET => _finalize_get
  | OpPUT => _finalize_put
  | OpDELETE => _finalize_delete
  end.

(** What a finalizer sends for a popped record. *)
Definition finalizer_output (op : Operation) (pending : PendingRequest.t)
    : list Action :=
  let key := PendingRequest.key pending in
  let best := best_cell (PendingRequest.responses pending) in
  match op with
  | OpGET =>
      (repairs key best (PendingRequest.responses pending)
         ++ [SendLocal (GET_RESP key best.1)])%list
  | OpPUT => [SendLocal (PUT_RESP key best.1)]
  | OpDELETE => [SendLocal (DELETE_RESP key best.1)]
  end.

(** The three response handlers, seen as one function of the operation tag
    of the response. *)
Definition handle_response (op : Operation) (self : StorageNode)
    (request_id : Z) (replica : NodeId) (c : Cell) : Outcome :=
  match _pending_requests self !! request_id with
  | None => Some (self, [])
  | Some pending =>
      if accepted op pending then
        let '(self, pending) :=
          record_response self request_id pending replica c in
        if quorum_reached pending then finalizer op self request_id
        else Some (self, [])
      else Some (self, [])
  end.

(** The three local handlers, seen as one function: what a client message
    asks for, the record it creates and the sub-request it fans out. *)
Definition client_operation (msg : Message) : option (Operation * Key * Z) :=
  match msg with
  | GET key quorum => Some (OpGET, key, quorum)
  | PUT key _ quorum => Some (OpPUT, key, quorum)
  | DELETE key quorum => Some (OpDELETE, key, quorum)
  | _ => None
  end.

Definition new_pending (msg : Message) (replicas : list NodeId)
    (now : Timestamp) : PendingRequest.t :=
  match msg with
  | PUT key value quorum =>
      PendingRequest.mk OpPUT key (Some value) replicas quorum [] now
        (Some now)
  | DELETE key quorum =>
      PendingRequest.mk OpDELETE key None replicas quorum [] now (Some now)
  | GET key quorum =>
      PendingRequest.mk OpGET key None replicas quorum [] now None
  | _ => PendingRequest.mk OpGET EmptyString None replicas 0 [] now None
  end.

Definition sub_request (msg : Message) (request_id : Z)
    (coordinator : NodeId) (now : Timestamp) : Message :=
  match msg with
  | PUT key value _ =>
      REPLICA_PUT_REQ key (Some value) request_id coordinator now
  | DELETE key _ => REPLICA_DELETE_REQ key request_id coordinator now
  | GET key _ => REPLICA_GET_REQ key request_id coordinator
  | other => other
  end.

Definition handle_client (self : StorageNode) (msg : Message)
    (now : Timestamp) : Outcome :=
  match client_operation msg with
  | None => Some (self, [])
  | Some (_, key, _) =>
      match get_key_replicas key (_node_count self) with
      | None => None
      | Some replicas =>
          let request_id := _request_counter self in
          Some (set_pending_requests
                  (<[request_id := new_pending msg replicas now]>
                     (_pending_requests self))
                  (set_request_counter (request_id + 1) self),
                map (fun replica =>
                       Send (sub_request msg request_id (_id self) now)
                         replica)
                    replicas)
      end
  end.

(** The coordinator and the request id a [REPLICA_*_REQ] carries. *)
Definition sub_request_of (msg : Message) : option (NodeId * Z) :=
  match msg with
  | REPLICA_GET_REQ _ request_id coordinator => Some (coordinator, request_id)
  | REPLICA_PUT_REQ _ _ request_id coordinator _ =>
      Some (coordinator, request_id)
  | REPLICA_DELETE_REQ _ request_id coordinator _ =>
      Some (coordinator, request_id)
  | _ => None
  end.

(** ** Predicates on nodes, outcomes and events *)

(** The outputs of a run, when no handler raised. *)
Definition outputs (o : Outcome) : option (list Action) := snd <$> o.

(** The replicas that have answered a pending request. *)
Definition answered (pending : PendingRequest.t) : gset NodeId :=
  list_to_set (PendingRequest.responses pending).*1.

(** What holds of every node reached from [init]: the request ids in the
    table were handed out by the counter, a [responses] dict has one slot per
    key, and a record that is still in the table and has answers has not
    reached its quorum. *)
Definition wf (self : StorageNode) : Prop :=
  0 <= _request_counter self /\
  forall request_id pending,
    _pending_requests self !! request_id = Some pending ->
    0 <= request_id < _request_counter self
    /\ NoDup (PendingRequest.responses pending).*1
    /\ (PendingRequest.responses pending = []
        \/ quorum_reached pending = false).

(** Frame conditions on an outcome. *)
Definition keeps_coordinator_state (self : StorageNode) (o : Outcome) : Prop :=
  exists self' out,
    o = Some (self', out)
    /\ _pending_requests self' = _pending_requests self
    /\ _request_counter self' = _request_counter self.

Definition keeps_store (self : StorageNode) (o : Outcome) : Prop :=
  exists self' out, o = Some (self', out) /\ _data self' = _data self.

(** The event is a [REPLICA_*_RESP] that names [request_id] and passes the
    handler's test on the record [pending]. *)
Definition matching (request_id : Z) (pending : PendingRequest.t)
    (ev : Event) : Prop :=
  match ev with
  | Peer msg _ =>
      exists op replica c,
        response_of msg = Some (op, request_id, replica, c)
        /\ accepted op pending = true
  | Local _ _ => False
  end.

(** The event is a [REPLICA_*_RESP] that names [request_id]. *)
Definition names_request (request_id : Z) (ev : Event) : Prop :=
  match ev with
  | Peer msg _ =>
      exists op replica c,
        response_of msg = Some (op, request_id, replica, c)
  | Local _ _ => False
  end.

(** The event, when it is a [REPLICA_*_RESP] that names [request_id],
    carries a replica id of [replicas]. *)
Definition from_placement (request_id : Z) (replicas : list NodeId)
    (ev : Event) : Prop :=
  match ev with
  | Peer msg _ =>
      forall op replica c,
        response_of msg = Some (op, request_id, replica, c) ->
        replica ∈ replicas
  | Local _ _ => True
  end.

(** The event is a [REPLICA_*_RESP] that names [request_id], comes from
    [replica] and carries a cell other than [c]. *)
Definition other_answer (request_id : Z) (replica : NodeId) (c : Cell)
    (ev : Event) : Prop :=
  match ev with
  | Peer msg _ =>
      exists op c',
        response_of msg = Some (op, request_id, replica, c') /\ c' <> c
  | Local _ _ => False
  end.

(** The response [(op, request_id, replica, c)] has had its effect on the
    node: the request was created, and it is completed, or its record
    rejects [op], or the slot of [replica] holds [c]. *)
Definition settled (op : Operation) (request_id : Z) (replica : NodeId)
    (c : Cell) (self : StorageNode) : Prop :=
  request_id < _request_counter self
  /\ (_pending_requests self !! request_id = None
      \/ exists pending,
           _pending_requests self !! request_id = Some pending
           /\ (accepted op pending = false
               \/ dict_get replica (PendingRequest.responses pending)
                  = Some c)).

(** The record of a pending request that cannot complete: its answers come
    from [replicas] and there are fewer distinct ids in [replicas] than the
    quorum asks for. *)
Definition stranded (request_id : Z) (replicas : list NodeId) (quorum : Z)
    (self : StorageNode) : Prop :=
  exists pending,
    _pending_requests self !! request_id = Some pending
    /\ PendingRequest.replicas pending = replicas
    /\ PendingRequest.quorum pending = quorum
    /\ answered pending ⊆ list_to_set replicas.

(** ** A system of nodes

    The environment described in sections 5 and 6 of the specification, as
    far as the properties below need it: every node runs the code above
    under its own name, [ctx.send(msg, dst)] hands the message to a transport
    that may deliver it to the node named [dst] any number of times, in any
    order, or never, and the client may submit a request to any node at any
    time. *)

Record Packet := mkPacket {
  dst : NodeId;
  src : NodeId;
  payload : Message
}.

Record System := mkSystem {
  sys_nodes : gmap NodeId StorageNode;
  sys_sent : list Packet;
  sys_replies : list (NodeId * Message)
}.

(** The packets and the client replies among the actions of node [n]. *)
Definition packets (n : NodeId) (out : list Action) : list Packet :=
  flat_map (fun a => match a with
                     | Send msg d => [mkPacket d n msg]
                     | SendLocal _ => []
                     end) out.

Definition local_replies (n : NodeId) (out : list Action)
    : list (NodeId * Message) :=
  flat_map (fun a => match a with
                     | Send _ _ => []
                     | SendLocal msg => [(n, msg)]
                     end) out.

(** What happens next: a client hands [msg] to node [n] when its clock reads
    [now], or the transport delivers the [i]-th packet sent so far. *)
Inductive Choice :=
| Client (n : NodeId) (msg : Message) (now : Timestamp)
| Deliver (i : nat).

Definition apply_outcome (sys : System) (n : NodeId) (o : Outcome)
    : option System :=
  match o with
  | None => None
  | Some (self', out) =>
      Some (mkSystem (<[n := self']> (sys_nodes sys))
              (sys_sent sys ++ packets n out)
              (sys_replies sys ++ local_replies n out))
  end.

(** One step; [None] when the node does not exist, the packet does not
    exist, or the handler raises. *)
Definition sys_step (sys : System) (ch : Choice) : option System :=
  match ch with
  | Client n msg now =>
      match sys_nodes sys !! n with
      | None => None
      | Some self => apply_outcome sys n (on_local_message self msg now)
      end
  | Deliver i =>
      match sys_sent sys !! i with
      | None => None
      | Some p =>
          match sys_nodes sys !! dst p with
          | None => None
          | Some self =>
              apply_outcome sys (dst p)
                (on_message self (payload p) (src p))
          end
      end
  end.

Fixpoint sys_run (sys : System) (chs : list Choice) : option System :=
  match chs with
  | [] => Some sys
  | ch :: chs' =>
      match sys_step sys ch with
      | None => None
      | Some sys' => sys_run sys' chs'
      end
  end.

(** Every node of [names] freshly constructed with the node list [names]. *)
Definition sys_init (names : list NodeId) : System :=
  mkSystem (list_to_map (map (fun n => (n, init n names)) names)) [] [].

(** What holds of every system reached from [sys_init]: a node carries its
    name and is well formed, and the request id of a sub-request or of a
    response in transit was handed out by its coordinator. *)
Definition sys_inv (sys : System) : Prop :=
  (forall n self,
     sys_nodes sys !! n = Some self -> _id self = n /\ wf self)
  /\ (forall p x r,
        p ∈ sys_sent sys ->
        sub_request_of (payload p) = Some (x, r) ->
        exists self, sys_nodes sys !! x = Some self
                     /\ r < _request_counter self)
  /\ (forall p op r replica c,
        p ∈ sys_sent sys ->
        response_of (payload p) = Some (op, r, replica, c) ->
        exists self, sys_nodes sys !! dst p = Some self
                     /\ r < _request_counter self).

(** The request [request_id] of coordinator [coord] is stranded, its
    sub-requests in transit go to [replicas], and the responses to it in
    transit come from [replicas]. *)
Definition tracks (coord : NodeId) (request_id : Z) (replicas : list NodeId)
    (quorum : Z) (sys : System) : Prop :=
  (exists self, sys_nodes sys !! coord = Some self
                /\ stranded request_id replicas quorum self)
  /\ (forall p,
        p ∈ sys_sent sys ->
        sub_request_of (payload p) = Some (coord, request_id) ->
        dst p ∈ replicas)
  /\ (forall p op replica c,
        p ∈ sys_sent sys ->
        dst p = coord ->
        response_of (payload p) = Some (op, request_id, replica, c) ->
        replica ∈ replicas).

(** ** Example nodes and schedules *)

(** A coordinator with one pending GET of quorum 1, as left by
    [GET{key="x", quorum=1}] at time 7 on a fresh node "0" of three. *)
Definition example_node : StorageNode :=
  set_pending_requests
    {[ 0 := PendingRequest.mk OpGET "x" None ["0"; "1"; "2"] 1 [] 7 None ]}
    (set_request_counter 1 (init "0" ["0"; "1"; "2"])).

(** A coordinator that waits for three answers to a GET and has the answer
    of replica "0". *)
Definition example_waiting : StorageNode :=
  set_pending_requests
    {[ 0 := PendingRequest.mk OpGET "x" None ["0"; "1"; "2"] 3
              [("0", (Some "a", 2))] 7 None ]}
    (set_request_counter 1 (init "0" ["0"; "1"; "2"])).

(** Fresh coordinators "0" of three nodes after one client GET of key "x" at
    time 7, with quorum 0 and with quorum 4. *)
Definition example_quorum_0 : StorageNode :=
  set_pending_requests
    {[ 0 := PendingRequest.mk OpGET "x" None ["0"; "1"; "2"] 0 [] 7 None ]}
    (set_request_counter 1 (init "0" ["0"; "1"; "2"])).

Definition example_quorum_4 : StorageNode :=
  set_pending_requests
    {[ 0 := PendingRequest.mk OpGET "x" None ["0"; "1"; "2"] 4 [] 7 None ]}
    (set_request_counter 1 (init "0" ["0"; "1"; "2"])).

(** A schedule on three nodes: a PUT of "a" to key "x" submitted to node "0"
    and a DELETE of "x" submitted to node "1" when both clocks read 5; replica
    "0" handles the PUT and then the DELETE, replica "1" the DELETE and then
    the PUT; then a GET with quorum 2 submitted to node "0", whose
    sub-requests reach replicas "0" and "1". *)
Definition tie_schedule : list Choice :=
  [ Client "0" (PUT "x" "a" 2) 5;
    Client "1" (DELETE "x" 2) 5;
    Deliver 0; Deliver 3;
    Deliver 4; Deliver 1;
    Client "0" (GET "x" 2) 6;
    Deliver 10; Deliver 11 ].

(** ** Views used by the further properties *)

(** What [_handle_replica_put_req] and [_handle_replica_read_repair] do to
    the store: [if should_update: self._data[key] = (value, timestamp)]. *)
Definition store_merge (key : Key) (c : Cell) (data : gmap Key Cell)
    : gmap Key Cell :=
  if should_update c.1 c.2 (data_get data key).1 (data_get data key).2
  then <[key := c]> data else data.

(** The event is a [REPLICA_PUT_REQ] or a [REPLICA_READ_REPAIR]; the key and
    the cell it carries. *)
Definition merge_of (ev : Event) : option (Key * Cell) :=
  match ev with
  | Peer (REPLICA_PUT_REQ key value _ _ timestamp) _ =>
      Some (key, (value, timestamp))
  | Peer (REPLICA_READ_REPAIR key value timestamp) _ =>
      Some (key, (value, timestamp))
  | _ => None
  end.

(** The reply a finalizer gives the client. *)
Definition reply (op : Operation) (key : Key) (value : Value) : Message :=
  match op with
  | OpGET => GET_RESP key value
  | OpPUT => PUT_RESP key value
  | OpDELETE => DELETE_RESP key value
  end.

(** The number of client requests among the events. *)
Definition is_client_request (ev : Event) : bool :=
  match ev with
  | Local msg _ =>
      match client_operation msg with
      | Some _ => true
      | None => false
      end
  | Peer _ _ => false
  end.

Definition client_requests (evs : list Event) : nat :=
  length (filter (fun ev => is_client_request ev = true) evs).

(** No two responses tie on the timestamp with a tombstone in one and a
    concrete value in the other, and a concrete value was written at a clock
    reading above the sentinel. *)
Definition no_mixed_ties (responses : list (NodeId * Cell)) : Prop :=
  (forall r r',
     r ∈ responses -> r' ∈ responses ->
     r.2.2 = r'.2.2 -> r.2.1 = None -> r'.2.1 = None)
  /\ (forall r, r ∈ responses -> r.2.1 <> None -> -1 < r.2.2).

(** The operation a [REPLICA_*_REQ] asks for. *)
Definition sub_request_operation (msg : Message) : option Operation :=
  match msg with
  | REPLICA_GET_REQ _ _ _ => Some OpGET
  | REPLICA_PUT_REQ _ _ _ _ _ => Some OpPUT
  | REPLICA_DELETE_REQ _ _ _ _ => Some OpDELETE
  | _ => None
  end.

(** The record that [request_id] names on the node, if any, is a record of
    operation [op]. *)
Definition agrees (self : StorageNode) (request_id : Z) (op : Operation)
    : Prop :=
  forall pending,
    _pending_requests self !! request_id = Some pending ->
    PendingRequest.operation pending = op.

(** Every sub-request and every response in transit agrees with the record
    it names on its coordinator. *)
Definition tags_agree (sys : System) : Prop :=
  (forall p x r op self,
     p ∈ sys_sent sys ->
     sub_request_of (payload p) = Some (x, r) ->
     sub_request_operation (payload p) = Some op ->
     sys_nodes sys !! x = Some self ->
     agrees self r op)
  /\ (forall p op r replica c self,
        p ∈ sys_sent sys ->
        response_of (payload p) = Some (op, r, replica, c) ->
        sys_nodes sys !! dst p = Some self ->
        agrees self r op).

(** The schedule [tie_schedule] with a DELETE of "x" with quorum 2 in place
    of the GET: replica "0" holds [(None, 5)] and replica "1" holds
    [("a", 5)] when the sub-requests of the DELETE, stamped 6, reach them. *)
Definition delete_tie_schedule : list Choice :=
  [ Client "0" (PUT "x" "a" 2) 5;
    Client "1" (DELETE "x" 2) 5;
    Deliver 0; Deliver 3;
    Deliver 4; Deliver 1;
    Client "0" (DELETE "x" 2) 6;
    Deliver 10; Deliver 11 ].

(** A schedule on three nodes in which the transport delivers one
    sub-request twice: replica "1" stores "a" stamped 2, answers the
    sub-request of a GET with quorum 2, stores "b" stamped 4, and answers the
    same sub-request again; replica "2", which holds nothing, answers it
    once.  The answers are packets 7 ("a" at 2), 12 ("b" at 4) and 13. *)
Definition duplicate_schedule : list Choice :=
  [ Client "0" (PUT "x" "a" 1) 2; Deliver 1;
    Client "0" (GET "x" 2) 3; Deliver 5;
    Client "0" (PUT "x" "b" 1) 4; Deliver 9;
    Deliver 5; Deliver 6 ].

(** A fresh coordinator "0" of three nodes after one client GET of key "x"
    with quorum 2 at time 7. *)
Definition example_quorum_2 : StorageNode :=
  set_pending_requests
    {[ 0 := PendingRequest.mk OpGET "x" None ["0"; "1"; "2"] 2 [] 7 None ]}
    (set_request_counter 1 (init "0" ["0"; "1"; "2"])).

(** ** Facts on the string order *)

Lemma str_gt_irrefl a : str_gt a a = false.
Proof.
  unfold str_gt.
  destruct (String_as_OT.compare_spec a a) as [_|H|H]; try reflexivity.
  exfalso. exact (irreflexivity String_as_OT.lt a H).
Qed.

Lemma str_gt_lt a b : str_gt a b = true <-> String_as_OT.lt b a.
Proof.
  unfold str_gt.
  destruct (String_as_OT.compare_spec a b) as [E|H|H]; split; intros G;
    try discriminate; try reflexivity; try assumption.
  - red in E. subst. exfalso. exact (irreflexivity String_as_OT.lt b G).
  - exfalso. exact (irreflexivity String_as_OT.lt a (transitivity H G)).
Qed.

Lemma str_gt_asym a b : str_gt a b = true -> str_gt b a = false.
Proof.
  intros H. destruct (str_gt b a) eqn:E; [|reflexivity].
  apply str_gt_lt in H, E.
  exfalso. exact (irreflexivity String_as_OT.lt a (transitivity E H)).
Qed.

Lemma str_gt_trans a b c :
  str_gt a b = true -> str_gt b c = true -> str_gt a c = true.
Proof.
  rewrite !str_gt_lt. intros H1 H2. exact (transitivity H2 H1).
Qed.

Lemma str_gt_total a b : str_gt a b = false -> str_gt b a = false -> a = b.
Proof.
  unfold str_gt.
  destruct (String_as_OT.compare_spec a b) as [E|H|H]; intros H1 H2;
    try discriminate; try assumption.
  destruct (String_as_OT.compare_spec b a) as [E'|H'|H']; try discriminate.
  - red in E'. symmetry; assumption.
  - exfalso. exact (irreflexivity String_as_OT.lt a (transitivity H H')).
Qed.

(** A three-way view of two strings. *)
Lemma str_cases a b :
  (a = b /\ str_gt a b = false /\ str_gt b a = false) \/
  (str_gt a b = true /\ str_gt b a = false) \/
  (str_gt b a = true /\ str_gt a b = false).
Proof.
  destruct (str_gt a b) eqn:E1.
  - right; left. split; [reflexivity|]. now apply str_gt_asym.
  - destruct (str_gt b a) eqn:E2.
    + right; right. split; reflexivity.
    + left. split; [|split; reflexivity]. now apply str_gt_total.
Qed.

(** ** The order on cells *)

Lemma value_lt_irrefl a : value_lt a a = false.
Proof. destruct a; simpl; [apply str_gt_irrefl | reflexivity]. Qed.

Lemma value_lt_trans a b c :
  value_lt a b = true -> value_lt b c = true -> value_lt a c = true.
Proof.
  destruct a, b, c; simpl; try congruence.
  intros H1 H2. exact (str_gt_trans _ _ _ H2 H1).
Qed.

Lemma value_lt_total a b :
  value_lt a b = false -> value_lt b a = false -> a = b.
Proof.
  destruct a, b; simpl; try congruence.
  intros H1 H2. f_equal. now apply str_gt_total.
Qed.

Lemma cell_lt_irrefl a : cell_lt a a = false.
Proof.
  unfold cell_lt. rewrite value_lt_irrefl, Z.ltb_irrefl, andb_false_r.
  reflexivity.
Qed.

Lemma cell_lt_trans a b c :
  cell_lt a b = true -> cell_lt b c = true -> cell_lt a c = true.
Proof.
  unfold cell_lt. destruct a as [va ta], b as [vb tb], c as [vc tc]; simpl.
  rewrite !orb_true_iff, !andb_true_iff, !Z.ltb_lt, !Z.eqb_eq.
  intros [H1|[H1 V1]] [H2|[H2 V2]]; try (left; lia).
  right. split; [lia|]. exact (value_lt_trans _ _ _ V1 V2).
Qed.

Lemma cell_lt_total a b :
  cell_lt a b = false -> cell_lt b a = false -> a = b.
Proof.
  unfold cell_lt. destruct a as [va ta], b as [vb tb]; simpl.
  rewrite !orb_false_iff, !andb_false_iff, !Z.ltb_ge, !Z.eqb_neq.
  intros [H1 V1] [H2 V2].
  assert (ta = tb) by lia. subst.
  destruct V1 as [?|V1]; [congruence|].
  destruct V2 as [?|V2]; [congruence|].
  f_equal. now apply value_lt_total.
Qed.

Lemma cell_lt_asym a b : cell_lt a b = true -> cell_lt b a = false.
Proof.
  intros H. destruct (cell_lt b a) eqn:E; [|reflexivity].
  pose proof (cell_lt_trans _ _ _ H E) as F.
  rewrite cell_lt_irrefl in F. discriminate.
Qed.

(** [b <= a] and [c <= b] give [c <= a]. *)
Lemma cell_lt_neg_trans a b c :
  cell_lt a b = false -> cell_lt b c = false -> cell_lt a c = false.
Proof.
  intros H1 H2. destruct (cell_lt a c) eqn:E; [|reflexivity].
  destruct (cell_lt c b) eqn:F.
  - pose proof (cell_lt_trans _ _ _ E F). congruence.
  - pose proof (cell_lt_total _ _ H2 F). subst. congruence.
Qed.

(** The flag computed by the replica handlers is the comparison of the
    stored cell with the incoming one. *)
Lemma should_update_cell_lt value timestamp current_value current_timestamp :
  should_update value timestamp current_value current_timestamp
  = cell_lt (current_value, current_timestamp) (value, timestamp).
Proof.
  unfold should_update, cell_lt; simpl.
  destruct (Z.gtb_spec timestamp current_timestamp) as [G|G].
  - destruct (Z.ltb_spec current_timestamp timestamp); [reflexivity|lia].
  - destruct (Z.ltb_spec current_timestamp timestamp); [lia|].
    rewrite (Z.eqb_sym current_timestamp timestamp).
    destruct (timestamp =? current_timestamp); [|reflexivity].
    destruct value, current_value; reflexivity.
Qed.

Lemma merge_max incoming current :
  merge incoming current
  = if cell_lt current incoming then incoming else current.
Proof.
  unfold merge. destruct incoming, current; simpl.
  now rewrite should_update_cell_lt.
Qed.

Lemma merge_spec_winner incoming current :
  merge incoming current = spec_winner current incoming.
Proof. apply merge_max. Qed.




(** What the two merging handlers leave in the store. *)
Lemma read_repair_stores_merge self key value timestamp :
  exists self',
    _handle_replica_read_repair self key value timestamp = Some (self', [])
    /\ data_get (_data self') key
       = merge (value, timestamp) (data_get (_data self) key).
Proof.
  unfold _handle_replica_read_repair, merge.
  destruct (data_get (_data self) key) as [cv ct] eqn:E; simpl.
  destruct (should_update value timestamp cv ct).
  - eexists; split; [reflexivity|]. unfold data_get; simpl.
    now rewrite lookup_insert_eq.
  - eexists; split; [reflexivity|]. exact E.
Qed.

Lemma put_req_stores_merge self key value request_id coordinator timestamp :
  exists self',
    _handle_replica_put_req self key value request_id coordinator timestamp
    = Some (self',
            [Send (REPLICA_PUT_RESP key
                     (merge (value, timestamp) (data_get (_data self) key)).1
                     (merge (value, timestamp) (data_get (_data self) key)).2
                     request_id (_id self)) coordinator])
    /\ data_get (_data self') key
       = merge (value, timestamp) (data_get (_data self) key).
Proof.
  unfold _handle_replica_put_req, merge.
  destruct (data_get (_data self) key) as [cv ct] eqn:E; simpl.
  destruct (should_update value timestamp cv ct).
  - eexists; split; [reflexivity|]. unfold data_get; simpl.
    now rewrite lookup_insert_eq.
  - eexists; split; [reflexivity|]. exact E.
Qed.


(** ** The coordinator's winner and the read repairs *)

(** A repair goes to the replicas whose recorded cell differs from the
    cell the finalizer computed. *)
Lemma needs_repair_ne best c :
  needs_repair best c = true
  <-> c.2 < best.2 \/ (c.2 = best.2 /\ c.1 <> best.1).
Proof.
  unfold needs_repair, value_ne.
  rewrite orb_true_iff, andb_true_iff, Z.ltb_lt, Z.eqb_eq.
  destruct (decide (c.1 = best.1)); intuition congruence.
Qed.

(** When no recorded cell is above [best], the repaired replicas are those
    strictly below it. *)
Lemma needs_repair_below best c :
  cell_lt best c = false -> needs_repair best c = cell_lt c best.
Proof.
  intros H. destruct (cell_lt c best) eqn:E.
  - apply needs_repair_ne. unfold cell_lt in E.
    apply orb_true_iff in E as [E|E]; [left; lia|].
    apply andb_true_iff in E as [E1 E2]. right. split; [lia|].
    intros Heq. rewrite Heq, value_lt_irrefl in E2. discriminate.
  - pose proof (cell_lt_total _ _ E H) as ->.
    destruct (needs_repair best best) eqn:F; [|reflexivity].
    apply needs_repair_ne in F. destruct F as [F|[_ F]]; [lia|congruence].
Qed.

Lemma cell_le_not_lt a b : cell_le a b = true <-> cell_lt b a = false.
Proof.
  unfold cell_le. rewrite orb_true_iff, bool_decide_eq_true. split.
  - intros [H| ->]; [now apply cell_lt_asym | apply cell_lt_irrefl].
  - intros H. destruct (cell_lt a b) eqn:E; [now left|].
    right. now apply cell_lt_total.
Qed.

(** A replica that has processed a repair holds a cell that is at or above
    the repair's cell. *)
Lemma read_repair_reaches self key value timestamp :
  exists self',
    _handle_replica_read_repair self key value timestamp = Some (self', [])
    /\ cell_le (value, timestamp) (data_get (_data self') key) = true.
Proof.
  destruct (read_repair_stores_merge self key value timestamp)
    as (self' & H & E).
  exists self'. split; [exact H|].
  apply cell_le_not_lt. rewrite E, merge_max.
  destruct (cell_lt (data_get (_data self) key) (value, timestamp)) eqn:F.
  - apply cell_lt_irrefl.
  - exact F.
Qed.

(** C1. The winner the finalizers compute does not follow the order of
    section 4.2.  A PUT of "a" and a DELETE, both stamped 5, reach replica
    "0" in that order and replica "1" in the other order, which leaves
    [(None, 5)] on "0" and [("a", 5)] on "1".  A GET with quorum 2 then
    answers the tombstone when the response of "0" is recorded first, and
    "a" when the response of "1" is recorded first. *)
Theorem finalizer_winner_depends_on_recording_order :
  (fun sys => ((fun n => _data n !! "x") <$> sys_nodes sys !! "0",
               (fun n => _data n !! "x") <$> sys_nodes sys !! "1",
               drop 13 (sys_sent sys))) <$>
    sys_run (sys_init ["0"; "1"; "2"]) tie_schedule
  = Some (Some (Some (None, 5)), Some (Some (Some "a", 5)),
          [ mkPacket "0" "0" (REPLICA_GET_RESP "x" None 5 1 "0");
            mkPacket "0" "1" (REPLICA_GET_RESP "x" (Some "a") 5 1 "1") ])
  /\ sys_replies <$>
       sys_run (sys_init ["0"; "1"; "2"])
         (tie_schedule ++ [Deliver 13; Deliver 14])
     = Some [("0", GET_RESP "x" None)]
  /\ sys_replies <$>
       sys_run (sys_init ["0"; "1"; "2"])
         (tie_schedule ++ [Deliver 14; Deliver 13])
     = Some [("0", GET_RESP "x" (Some "a"))]
  /\ best_cell [("0", (None, 5)); ("1", (Some "a", 5))] = (None, 5)
  /\ best_cell [("1", (Some "a", 5)); ("0", (None, 5))] = (Some "a", 5)
  /\ spec_winner (None, 5) (Some "a", 5) = (Some "a", 5).
Proof. split_and!; vm_compute; reflexivity. Qed.

(** C4. In the same run, with the response of "0" recorded first, the GET
    finalizer computes the winner [(None, 5)] and sends its one read repair
    to replica "1", whose recorded cell [("a", 5)] is not below that winner
    but above it; the repair carries the tombstone and leaves the store of
    "1" as it was. *)
Theorem read_repair_sent_to_replica_above_winner :
  (fun sys => (drop 15 (sys_sent sys), sys_replies sys)) <$>
    sys_run (sys_init ["0"; "1"; "2"])
      (tie_schedule ++ [Deliver 13; Deliver 14])
  = Some ([mkPacket "1" "0" (REPLICA_READ_REPAIR "x" None 5)],
          [("0", GET_RESP "x" None)])
  /\ cell_lt (Some "a", 5) (None, 5) = false
  /\ cell_lt (None, 5) (Some "a", 5) = true
  /\ (fun sys => (fun n => _data n !! "x") <$> sys_nodes sys !! "1") <$>
       sys_run (sys_init ["0"; "1"; "2"])
         (tie_schedule ++ [Deliver 13; Deliver 14; Deliver 15])
     = Some (Some (Some (Some "a", 5))).
Proof. split_and!; vm_compute; reflexivity. Qed.

(** ** Responses whose operation differs from the pending request's *)

(** [_handle_replica_put_resp] and [_handle_replica_delete_resp] drop a
    response for a request of another operation. *)
Lemma put_resp_other_operation_dropped self value timestamp request_id
    replica pending :
  _pending_requests self !! request_id = Some pending ->
  PendingRequest.operation pending <> OpPUT ->
  _handle_replica_put_resp self value timestamp request_id replica
  = Some (self, []).
Proof.
  intros H Hop. unfold _handle_replica_put_resp. rewrite H.
  destruct (PendingRequest.operation pending); congruence.
Qed.

Lemma delete_resp_other_operation_dropped self value timestamp request_id
    replica pending :
  _pending_requests self !! request_id = Some pending ->
  PendingRequest.operation pending <> OpDELETE ->
  _handle_replica_delete_resp self value timestamp request_id replica
  = Some (self, []).
Proof.
  intros H Hop. unfold _handle_replica_delete_resp. rewrite H.
  destruct (PendingRequest.operation pending); congruence.
Qed.

(** C2. [_handle_replica_get_resp] does not compare the operation: a
    [REPLICA_GET_RESP] that names a pending PUT is recorded in its
    [responses], and with quorum 1 the GET finalizer runs, removes the PUT's
    record and answers the client with a [GET_RESP]. *)
Theorem get_response_finalizes_pending_put :
  outputs (run (init "0" ["0"; "1"; "2"])
             [ Local (PUT "x" "v" 1) 7;
               Peer (REPLICA_GET_RESP "x" None (-1) 0 "1") "1" ])
  = Some [ Send (REPLICA_PUT_REQ "x" (Some "v") 0 "0" 7) "0";
           Send (REPLICA_PUT_REQ "x" (Some "v") 0 "0" 7) "1";
           Send (REPLICA_PUT_REQ "x" (Some "v") 0 "0" 7) "2";
           SendLocal (GET_RESP "x" None) ]
  /\
  (fun r : StorageNode * list Action =>
     PendingRequest.operation <$> (_pending_requests r.1 !! 0))
    <$> run (init "0" ["0"; "1"; "2"]) [ Local (PUT "x" "v" 1) 7 ]
  = Some (Some OpPUT)
  /\
  (fun r : StorageNode * list Action =>
     PendingRequest.operation <$> (_pending_requests r.1 !! 0))
    <$> run (init "0" ["0"; "1"; "2"])
          [ Local (PUT "x" "v" 1) 7;
            Peer (REPLICA_GET_RESP "x" None (-1) 0 "1") "1" ]
  = Some None.
Proof. repeat split; vm_compute; reflexivity. Qed.

(** ** Placement *)

Lemma to_le_length n x : length (MD5.to_le n x) = n.
Proof.
  revert x. induction n; intros x; simpl; [reflexivity|]. now rewrite IHn.
Qed.

Lemma to_le_bytes n x : Forall (fun b => 0 <= b < 256) (MD5.to_le n x).
Proof.
  revert x. induction n; intros x; simpl; constructor.
  - apply Z.mod_pos_bound. lia.
  - apply IHn.
Qed.

Lemma from_le_bound bs :
  Forall (fun b => 0 <= b < 256) bs ->
  0 <= MD5.from_le bs < 256 ^ Z.of_nat (length bs).
Proof.
  induction 1 as [|b bs Hb _ IH]; simpl.
  - lia.
  - change (MD5.from_le (b :: bs)) with (b + 256 * MD5.from_le bs).
    replace (Z.of_nat (S (length bs))) with (Z.succ (Z.of_nat (length bs)))
      by lia.
    rewrite Z.pow_succ_r by lia. nia.
Qed.

Lemma digest_length msg : length (MD5.digest msg) = 16%nat.
Proof.
  unfold MD5.digest.
  destruct (MD5.blocks _ _ _) as [[[a b] c] d].
  rewrite !length_app, !to_le_length. reflexivity.
Qed.

Lemma digest_bytes msg : Forall (fun b => 0 <= b < 256) (MD5.digest msg).
Proof.
  unfold MD5.digest.
  destruct (MD5.blocks _ _ _) as [[[a b] c] d].
  repeat apply Forall_app_2; apply to_le_bytes.
Qed.

Lemma key_hash_unsigned key : 0 <= key_hash key < 2 ^ 128.
Proof.
  unfold key_hash.
  pose proof (from_le_bound _ (digest_bytes (encode key))) as H.
  rewrite digest_length in H. exact H.
Qed.

Lemma next_replica_mod H node_count k :
  0 < node_count ->
  get_next_replica ((H + k) mod node_count) node_count
  = (H + (k + 1)) mod node_count.
Proof.
  intros Hn. unfold get_next_replica.
  rewrite Zplus_mod_idemp_l. f_equal. lia.
Qed.

(** RFC 1321 test vectors, through [key_hash]. *)
Example key_hash_a :
  MD5.digest (encode "a")
  = [0x0c; 0xc1; 0x75; 0xb9; 0xc0; 0xf1; 0xb6; 0xa8;
     0x31; 0xc3; 0x99; 0xe2; 0x69; 0x77; 0x26; 0x61].
Proof. vm_compute. reflexivity. Qed.

Example key_hash_message_digest :
  MD5.digest (encode "message digest")
  = [0xf9; 0x6b; 0x69; 0x7d; 0x7c; 0xb7; 0x93; 0x8d;
     0x52; 0x5a; 0x2f; 0x31; 0xaa; 0xf1; 0x61; 0xd0].
Proof. vm_compute. reflexivity. Qed.

Example sorted_is_lexicographic :
  sorted ["2"; "10"; "1"; "0"] = ["0"; "1"; "10"; "2"].
Proof. reflexivity. Qed.

(** C3, as stated, fails.  For the node list ["A"; "B"; "C"] the code places
    key "x" on "0", "1", "2", which are not entries of the node list.  For
    the eleven nodes "0" to "10" it places key "x" on "5", "6", "7", while
    the entries of the sorted list at the three indices are "4", "5", "6".
    For the empty node list it raises. *)
Lemma placement_is_not_read_from_node_list :
  get_key_replicas "x" (_node_count (init "A" ["A"; "B"; "C"]))
    = Some ["0"; "1"; "2"]
  /\ replicas_of_spec "x" ["A"; "B"; "C"] = ["A"; "B"; "C"]
  /\ get_key_replicas "x" (_node_count (init "A" ["A"; "B"; "C"]))
     <> Some (replicas_of_spec "x" ["A"; "B"; "C"])
  /\ get_key_replicas "x"
       (_node_count
          (init "0" ["0"; "1"; "2"; "3"; "4"; "5"; "6"; "7"; "8"; "9"; "10"]))
     = Some ["5"; "6"; "7"]
  /\ replicas_of_spec "x"
       ["0"; "1"; "2"; "3"; "4"; "5"; "6"; "7"; "8"; "9"; "10"]
     = ["4"; "5"; "6"]
  /\ get_key_replicas "x" (_node_count (init "A" [])) = None.
Proof. split_and!; vm_compute; congruence. Qed.

Lemma get_key_replicas_indices key node_count :
  0 < node_count ->
  get_key_replicas key node_count
  = Some [ str (key_hash key mod node_count);
           str ((key_hash key + 1) mod node_count);
           str ((key_hash key + 2) mod node_count) ].
Proof.
  intros Hn. unfold get_key_replicas.
  destruct (Z.eqb_spec node_count 0) as [?|_]; [lia|].
  pose proof (next_replica_mod (key_hash key) node_count 0 Hn) as H1.
  pose proof (next_replica_mod (key_hash key) node_count 1 Hn) as H2.
  rewrite Z.add_0_r in H1. change (0 + 1) with 1 in H1.
  change (1 + 1) with 2 in H2.
  unfold Nat.iter. cbn [nat_rect replicas_step fst app].
  rewrite H1, H2. reflexivity.
Qed.

(** Whenever placement returns, it returns three entries. *)
Lemma get_key_replicas_length key node_count replicas :
  get_key_replicas key node_count = Some replicas -> length replicas = 3%nat.
Proof.
  unfold get_key_replicas. destruct (node_count =? 0); [discriminate|].
  intros [= <-]. reflexivity.
Qed.

Lemma insert_sorted_length x l :
  length (insert_sorted x l) = S (length l).
Proof.
  induction l as [|y l IH]; simpl; [reflexivity|].
  destruct (str_gt x y); simpl; [now rewrite IH | reflexivity].
Qed.

Lemma sorted_length l : length (sorted l) = length l.
Proof.
  induction l as [|x l IH]; simpl; [reflexivity|].
  now rewrite insert_sorted_length, IH.
Qed.

(** C3, amended. For every key and every non-empty node list, with [N] the
    length of the list and [H] the 16-byte MD5 digest of the key read as an
    unsigned little-endian integer, placement returns exactly the three
    decimal strings of [H mod N], [(H+1) mod N], [(H+2) mod N]. *)
Theorem placement_returns_three_indices
    (key : Key) (node_id : NodeId) (nodes : list NodeId) :
  nodes <> [] ->
  let N := Z.of_nat (length nodes) in
  length (MD5.digest (encode key)) = 16%nat
  /\ 0 <= key_hash key < 2 ^ 128
  /\ _node_count (init node_id nodes) = N
  /\ get_key_replicas key (_node_count (init node_id nodes))
     = Some [ str (key_hash key mod N);
              str ((key_hash key + 1) mod N);
              str ((key_hash key + 2) mod N) ].
Proof.
  intros Hne N.
  assert (HN : _node_count (init node_id nodes) = N)
    by (simpl; now rewrite sorted_length).
  split; [apply digest_length|]. split; [apply key_hash_unsigned|].
  split; [exact HN|]. rewrite HN.
  apply get_key_replicas_indices.
  subst N. destruct nodes; [congruence | simpl; lia].
Qed.

Lemma placement_returns_three_indices_witness :
  get_key_replicas "x" (_node_count (init "A" ["C"; "A"; "B"]))
  = Some [ str (key_hash "x" mod 3);
           str ((key_hash "x" + 1) mod 3);
           str ((key_hash "x" + 2) mod 3) ].
Proof.
  destruct (placement_returns_three_indices "x" "A" ["C"; "A"; "B"])
    as (_ & _ & _ & H); [discriminate | exact H].
Defined.

(** ** The response handlers, uniformly *)

Lemma on_message_response msg sender self op request_id replica c :
  response_of msg = Some (op, request_id, replica, c) ->
  on_message self msg sender = handle_response op self request_id replica c.
Proof.
  destruct msg; simpl; try discriminate; intros [= <- <- <- <-];
    unfold handle_response, _handle_replica_get_resp,
      _handle_replica_put_resp, _handle_replica_delete_resp;
    destruct (_pending_requests self !! _) as [p|]; try reflexivity;
    unfold accepted; destruct (PendingRequest.operation p); reflexivity.
Qed.

Lemma finalizer_pops op self request_id pending :
  _pending_requests self !! request_id = Some pending ->
  finalizer op self request_id
  = Some (set_pending_requests (delete request_id (_pending_requests self))
            self,
          finalizer_output op pending).
Proof.
  intros H.
  destruct op; simpl; unfold _finalize_get, _finalize_put, _finalize_delete;
    rewrite H; reflexivity.
Qed.

Lemma finalizer_raises op self request_id :
  _pending_requests self !! request_id = None ->
  finalizer op self request_id = None.
Proof.
  intros H.
  destruct op; simpl; unfold _finalize_get, _finalize_put, _finalize_delete;
    rewrite H; reflexivity.
Qed.

(** An accepted response either completes the request or is recorded. *)
Lemma handle_response_accepted op self request_id replica c pending :
  _pending_requests self !! request_id = Some pending ->
  accepted op pending = true ->
  let pending' :=
    PendingRequest.set_responses
      (dict_set replica c (PendingRequest.responses pending)) pending in
  handle_response op self request_id replica c
  = if quorum_reached pending'
    then Some (set_pending_requests
                 (delete request_id (_pending_requests self)) self,
               finalizer_output op pending')
    else Some (set_pending_requests
                 (<[request_id := pending']> (_pending_requests self)) self,
               []).
Proof.
  intros H Ha pending'. unfold handle_response. rewrite H, Ha.
  unfold record_response. fold pending'.
  destruct (quorum_reached pending'); [|reflexivity].
  erewrite finalizer_pops by (simpl; apply lookup_insert_eq).
  simpl. unfold set_pending_requests; simpl.
  now rewrite delete_insert_eq.
Qed.

Lemma handle_response_unknown op self request_id replica c :
  _pending_requests self !! request_id = None ->
  handle_response op self request_id replica c = Some (self, []).
Proof. intros H. unfold handle_response. now rewrite H. Qed.

Lemma handle_response_rejected op self request_id replica c pending :
  _pending_requests self !! request_id = Some pending ->
  accepted op pending = false ->
  handle_response op self request_id replica c = Some (self, []).
Proof. intros H Ha. unfold handle_response. now rewrite H, Ha. Qed.

(** ** Deletes *)

Lemma best_step_same v t rs :
  Forall (fun r : NodeId * Cell => r.2 = (Some v, t)) rs ->
  fold_left best_step rs (Some v, t) = (Some v, t).
Proof.
  induction 1 as [|[k [v' t']] rs Hr _ IH]; simpl; [reflexivity|].
  simpl in Hr. injection Hr as -> ->.
  destruct (Z.gtb_spec t t); [lia|]. rewrite Z.eqb_refl, str_gt_irrefl.
  exact IH.
Qed.

Lemma best_cell_uniform rs v t :
  rs <> [] ->
  Forall (fun r : NodeId * Cell => r.2 = (Some v, t)) rs ->
  -1 < t ->
  best_cell rs = (Some v, t).
Proof.
  intros Hne Hall Ht. destruct rs as [|[k [v' t']] rs]; [congruence|].
  inversion Hall as [|? ? Hr Hrs]; subst. simpl in Hr. injection Hr as -> ->.
  unfold best_cell; simpl.
  destruct (Z.gtb_spec t (-1)); [|lia].
  now apply best_step_same.
Qed.

(** The replica side of a DELETE, and what the DELETE finalizer sends.  A
    replica handling [REPLICA_DELETE_REQ] overwrites the cell of the key with
    [(None, timestamp)] whatever it held, and replies with the cell it held
    before, [(None, -1)] when the key was absent.  The finalizer answers the
    client with the value of the cell its loop computes over the recorded
    previous cells; when the answering replicas all held [(v, t)] that value
    is [v]. *)
Lemma delete_overwrites_and_reports_previous_cell
    (self : StorageNode) (key : Key) (request_id : Z) (coordinator : NodeId)
    (timestamp : Timestamp) :
  let prev := data_get (_data self) key in
  let self' := set_data (<[key := (None, timestamp)]> (_data self)) self in
  _handle_replica_delete_req self key request_id coordinator timestamp
  = Some (self',
          [Send (REPLICA_DELETE_RESP key prev.1 prev.2 request_id (_id self))
             coordinator])
  /\ _data self' !! key = Some (None, timestamp)
  /\ (forall other, other <> key -> _data self' !! other = _data self !! other)
  /\ (_data self !! key = None -> prev = (None, -1))
  /\ (forall c, _data self !! key = Some c -> prev = c)
  /\ (forall coord rid pending,
        _pending_requests coord !! rid = Some pending ->
        _finalize_delete coord rid
        = Some (set_pending_requests (delete rid (_pending_requests coord))
                  coord,
                [SendLocal
                   (DELETE_RESP (PendingRequest.key pending)
                      (best_cell (PendingRequest.responses pending)).1)]))
  /\ (forall rs v t,
        rs <> [] ->
        Forall (fun r : NodeId * Cell => r.2 = (Some v, t)) rs ->
        -1 < t ->
        (best_cell rs).1 = Some v).
Proof.
  intros prev self'. split_and!.
  - unfold _handle_replica_delete_req. subst prev self'.
    now destruct (data_get (_data self) key).
  - subst self'; simpl. apply lookup_insert_eq.
  - intros other Hne. subst self'; simpl. now apply lookup_insert_ne.
  - intros H. subst prev. unfold data_get. now rewrite H.
  - intros c H. subst prev. unfold data_get. now rewrite H.
  - intros coord rid pending H.
    exact (finalizer_pops OpDELETE coord rid pending H).
  - intros rs v t H1 H2 H3. now rewrite (best_cell_uniform rs v t).
Qed.

(** Scenario S4: the store holds [("v1", 1)], the delete is stamped 9. *)
Lemma delete_overwrites_and_reports_previous_cell_witness :
  let self := set_data {[ "x" := (Some "v1", 1) ]} (init "0" ["0"; "1"; "2"]) in
  _handle_replica_delete_req self "x" 0 "1" 9
  = Some (set_data (<["x" := (None, 9)]> (_data self)) self,
          [Send (REPLICA_DELETE_RESP "x" (Some "v1") 1 0 "0") "1"])
  /\ (best_cell [("0", (Some "v1", 1)); ("1", (Some "v1", 1))]).1 = Some "v1".
Proof.
  intros self.
  destruct (delete_overwrites_and_reports_previous_cell self "x" 0 "1" 9)
    as (H1 & _ & _ & _ & H5 & _ & H7).
  split.
  - rewrite H1.
    rewrite (H5 (Some "v1", 1)); [reflexivity|].
    apply lookup_singleton_eq.
  - apply (H7 _ "v1" 1); [discriminate | | lia].
    repeat constructor.
Defined.

(** C5. The DELETE finalizer does not answer the winner across the previous
    cells.  Replica "0" holds [(None, 5)] and replica "1" holds [("a", 5)]
    when a DELETE stamped 6 reaches them; both overwrite their cell with
    [(None, 6)] and reply with the previous cell.  The winner of the two
    previous cells in the order of section 4.2 is [("a", 5)], but with the
    reply of "0" recorded first the client is answered the tombstone; with
    the reply of "1" recorded first it is answered "a". *)
Theorem delete_finalizer_answers_tombstone_on_tie :
  (fun sys => ((fun n => _data n !! "x") <$> sys_nodes sys !! "0",
               (fun n => _data n !! "x") <$> sys_nodes sys !! "1",
               drop 13 (sys_sent sys))) <$>
    sys_run (sys_init ["0"; "1"; "2"]) delete_tie_schedule
  = Some (Some (Some (None, 6)), Some (Some (None, 6)),
          [ mkPacket "0" "0" (REPLICA_DELETE_RESP "x" None 5 1 "0");
            mkPacket "0" "1" (REPLICA_DELETE_RESP "x" (Some "a") 5 1 "1") ])
  /\ sys_replies <$>
       sys_run (sys_init ["0"; "1"; "2"])
         (delete_tie_schedule ++ [Deliver 13; Deliver 14])
     = Some [("0", DELETE_RESP "x" None)]
  /\ sys_replies <$>
       sys_run (sys_init ["0"; "1"; "2"])
         (delete_tie_schedule ++ [Deliver 14; Deliver 13])
     = Some [("0", DELETE_RESP "x" (Some "a"))]
  /\ spec_winner (None, 5) (Some "a", 5) = (Some "a", 5)
  /\ cell_lt (None, 5) (Some "a", 5) = true.
Proof. split_and!; vm_compute; reflexivity. Qed.

(** ** State separation *)

Lemma handle_response_keeps_store op self request_id replica c :
  keeps_store self (handle_response op self request_id replica c).
Proof.
  unfold keeps_store.
  destruct (_pending_requests self !! request_id) as [p|] eqn:H.
  - destruct (accepted op p) eqn:Ha.
    + rewrite (handle_response_accepted _ _ _ _ _ _ H Ha).
      destruct (quorum_reached _); eexists _, _; split; reflexivity.
    + rewrite (handle_response_rejected _ _ _ _ _ _ H Ha).
      eexists _, _; split; reflexivity.
  - rewrite (handle_response_unknown _ _ _ _ _ H).
    eexists _, _; split; reflexivity.
Qed.

Lemma get_req_pure self key request_id coordinator :
  _handle_replica_get_req self key request_id coordinator
  = Some (self,
          [Send (REPLICA_GET_RESP key (data_get (_data self) key).1
                   (data_get (_data self) key).2 request_id (_id self))
             coordinator]).
Proof.
  unfold _handle_replica_get_req. now destruct (data_get (_data self) key).
Qed.

Lemma put_req_keeps self key value request_id coordinator timestamp :
  keeps_coordinator_state self
    (_handle_replica_put_req self key value request_id coordinator timestamp).
Proof.
  unfold keeps_coordinator_state, _handle_replica_put_req.
  destruct (data_get (_data self) key) as [cv ct].
  destruct (should_update value timestamp cv ct);
    eexists _, _; split_and!; reflexivity.
Qed.

Lemma delete_req_keeps self key request_id coordinator timestamp :
  keeps_coordinator_state self
    (_handle_replica_delete_req self key request_id coordinator timestamp).
Proof.
  unfold keeps_coordinator_state, _handle_replica_delete_req.
  destruct (data_get (_data self) key) as [cv ct].
  eexists _, _; split_and!; reflexivity.
Qed.

Lemma read_repair_keeps self key value timestamp :
  keeps_coordinator_state self
    (_handle_replica_read_repair self key value timestamp).
Proof.
  unfold keeps_coordinator_state, _handle_replica_read_repair.
  destruct (data_get (_data self) key) as [cv ct].
  destruct (should_update value timestamp cv ct);
    eexists _, _; split_and!; reflexivity.
Qed.

Lemma on_message_response_keeps_store self msg sender op request_id replica c :
  response_of msg = Some (op, request_id, replica, c) ->
  keeps_store self (on_message self msg sender).
Proof.
  intros H. rewrite (on_message_response _ sender self _ _ _ _ H).
  apply handle_response_keeps_store.
Qed.

(** C9. The replica handlers leave the pending table and the request
    counter as they were, and [REPLICA_GET_REQ] leaves the whole node as it
    was; the response handlers and the finalizers leave the store as it
    was (a finalizer called on an unknown id raises). *)
Theorem state_separation_frame (self : StorageNode) :
  (forall key request_id coordinator,
     exists out,
       _handle_replica_get_req self key request_id coordinator
       = Some (self, out))
  /\ (forall key value request_id coordinator timestamp,
        keeps_coordinator_state self
          (_handle_replica_put_req self key value request_id coordinator
             timestamp))
  /\ (forall key request_id coordinator timestamp,
        keeps_coordinator_state self
          (_handle_replica_delete_req self key request_id coordinator
             timestamp))
  /\ (forall key value timestamp,
        keeps_coordinator_state self
          (_handle_replica_read_repair self key value timestamp))
  /\ (forall value timestamp request_id replica,
        keeps_store self
          (_handle_replica_get_resp self value timestamp request_id replica)
        /\ keeps_store self
             (_handle_replica_put_resp self value timestamp request_id
                replica)
        /\ keeps_store self
             (_handle_replica_delete_resp self value timestamp request_id
                replica))
  /\ (forall op request_id,
        match finalizer op self request_id with
        | Some (self', _) => _data self' = _data self
        | None => _pending_requests self !! request_id = None
        end).
Proof.
  split_and!.
  - intros key request_id coordinator. eexists. apply get_req_pure.
  - apply put_req_keeps.
  - apply delete_req_keeps.
  - apply read_repair_keeps.
  - intros value timestamp request_id replica. split_and!.
    + exact (on_message_response_keeps_store self
               (REPLICA_GET_RESP EmptyString value timestamp request_id
                  replica)
               EmptyString _ _ _ _ eq_refl).
    + exact (on_message_response_keeps_store self
               (REPLICA_PUT_RESP EmptyString value timestamp request_id
                  replica)
               EmptyString _ _ _ _ eq_refl).
    + exact (on_message_response_keeps_store self
               (REPLICA_DELETE_RESP EmptyString value timestamp request_id
                  replica)
               EmptyString _ _ _ _ eq_refl).
  - intros op request_id.
    destruct (_pending_requests self !! request_id) as [p|] eqn:H.
    + now rewrite (finalizer_pops op self request_id p H).
    + now rewrite (finalizer_raises op self request_id H).
Qed.

(** ** The [responses] dict *)

Section Dict.
Context {V : Type}.
Implicit Types (k : string) (v : V) (d : list (string * V)).

Lemma dict_get_set_eq k v d : dict_get k (dict_set k v d) = Some v.
Proof.
  induction d as [|[k' v'] d IH]; simpl.
  - now rewrite decide_True.
  - destruct (decide (k' = k)) as [->|Hne]; simpl.
    + now rewrite decide_True.
    + now rewrite decide_False.
Qed.

Lemma dict_get_set_ne k k' v d :
  k' <> k -> dict_get k' (dict_set k v d) = dict_get k' d.
Proof.
  intros Hne. induction d as [|[k0 v0] d IH]; simpl.
  - rewrite decide_False by congruence. reflexivity.
  - destruct (decide (k0 = k)) as [->|Hk]; simpl.
    + rewrite !decide_False by congruence. reflexivity.
    + destruct (decide (k0 = k')); [reflexivity | exact IH].
Qed.

Lemma dict_get_None k d : dict_get k d = None <-> k ∉ d.*1.
Proof.
  induction d as [|[k' v'] d IH]; simpl.
  - split; [intros _; apply not_elem_of_nil | reflexivity].
  - rewrite not_elem_of_cons. destruct (decide (k' = k)) as [->|Hne].
    + split; [discriminate | intros [? _]; congruence].
    + rewrite IH. split.
      * intros ?. split; [congruence | assumption].
      * intros [_ ?]. assumption.
Qed.

(** A key already in the dict keeps the length, a new key adds one. *)
Lemma dict_set_length k v d :
  length (dict_set k v d)
  = match dict_get k d with
    | Some _ => length d
    | None => S (length d)
    end.
Proof.
  induction d as [|[k' v'] d IH]; simpl; [reflexivity|].
  destruct (decide (k' = k)); simpl; [reflexivity|].
  rewrite IH. now destruct (dict_get k d).
Qed.

Lemma dict_set_keys k v d :
  list_to_set (C := gset string) (dict_set k v d).*1
  = {[k]} ∪ list_to_set d.*1.
Proof.
  induction d as [|[k' v'] d IH]; [set_solver|].
  cbn [dict_set]. destruct (decide (k' = k)) as [->|Hne]; csimpl.
  - clear IH. set_solver.
  - rewrite IH. clear IH. set_solver.
Qed.

Lemma dict_set_elem k k' v d :
  k' ∈ (dict_set k v d).*1 <-> k' = k \/ k' ∈ d.*1.
Proof.
  induction d as [|[k0 v0] d IH]; simpl.
  - rewrite list_elem_of_singleton. set_solver.
  - destruct (decide (k0 = k)) as [->|Hne]; simpl.
    + rewrite !elem_of_cons. tauto.
    + rewrite !elem_of_cons, IH. tauto.
Qed.

Lemma dict_set_NoDup k v d : NoDup d.*1 -> NoDup (dict_set k v d).*1.
Proof.
  induction d as [|[k' v'] d IH]; simpl; intros Hd.
  - apply NoDup_singleton.
  - apply NoDup_cons in Hd as [Hk Hd].
    destruct (decide (k' = k)) as [->|Hne]; simpl.
    + now apply NoDup_cons.
    + apply NoDup_cons. split; [|now apply IH].
      rewrite dict_set_elem. intros [?|?]; [congruence | contradiction].
Qed.

Lemma dict_set_twice k v d : dict_set k v (dict_set k v d) = dict_set k v d.
Proof.
  induction d as [|[k' v'] d IH]; simpl.
  - now rewrite decide_True.
  - destruct (decide (k' = k)) as [->|Hne]; simpl.
    + now rewrite decide_True.
    + rewrite decide_False by assumption. now rewrite IH.
Qed.

(** With one slot per key, the length counts the distinct keys. *)
Lemma dict_length_distinct d :
  NoDup d.*1 -> length d = size (list_to_set (C := gset string) d.*1).
Proof.
  intros Hd. rewrite size_list_to_set by assumption.
  now rewrite length_fmap.
Qed.

End Dict.

(** ** The local handlers, uniformly *)

Lemma on_local_message_client self msg now :
  on_local_message self msg now = handle_client self msg now.
Proof.
  destruct msg; try reflexivity; simpl;
    unfold handle_client, _handle_local_get, _handle_local_put,
      _handle_local_delete; simpl;
    destruct (get_key_replicas _ _); reflexivity.
Qed.

(** A peer message is a response or is handled by a replica handler. *)
Lemma on_message_cases self msg sender :
  (exists op request_id replica c,
     response_of msg = Some (op, request_id, replica, c))
  \/ (response_of msg = None
      /\ keeps_coordinator_state self (on_message self msg sender)).
Proof.
  destruct msg; simpl;
    try (left; eexists _, _, _, _; reflexivity);
    right; (split; [reflexivity|]);
    try (eexists _, _; split_and!; reflexivity).
  - rewrite get_req_pure. eexists _, _; split_and!; reflexivity.
  - apply put_req_keeps.
  - apply delete_req_keeps.
  - apply read_repair_keeps.
Qed.

(** ** How one event changes the pending table *)

Lemma new_pending_responses msg replicas now :
  PendingRequest.responses (new_pending msg replicas now) = [].
Proof. destruct msg; reflexivity. Qed.

(** At a given request id, an event leaves the table as it was, or creates
    the record under the id the counter held, or is an accepted response for
    that id, which is recorded in the record or completes it. *)
Lemma handle_table self ev self' out request_id :
  handle self ev = Some (self', out) ->
  _request_counter self <= _request_counter self'
  /\ (_pending_requests self' !! request_id
        = _pending_requests self !! request_id
      \/ (request_id = _request_counter self
          /\ _request_counter self' = _request_counter self + 1
          /\ exists msg now replicas,
               ev = Local msg now
               /\ _pending_requests self' !! request_id
                  = Some (new_pending msg replicas now))
      \/ (exists msg sender op replica c pending,
            ev = Peer msg sender
            /\ response_of msg = Some (op, request_id, replica, c)
            /\ _pending_requests self !! request_id = Some pending
            /\ accepted op pending = true
            /\ let pending' :=
                 PendingRequest.set_responses
                   (dict_set replica c (PendingRequest.responses pending))
                   pending in
               if quorum_reached pending'
               then _pending_requests self' !! request_id = None
                    /\ out = finalizer_output op pending'
               else _pending_requests self' !! request_id = Some pending'
                    /\ out = [])).
Proof.
  destruct ev as [msg now|msg sender]; simpl.
  - rewrite on_local_message_client. unfold handle_client.
    destruct (client_operation msg) as [[[op key] q]|].
    + destruct (get_key_replicas key (_node_count self)) as [replicas|];
        [|discriminate].
      intros [= <- <-]; simpl. split; [lia|].
      destruct (decide (request_id = _request_counter self)) as [->|Hne].
      * right; left. split_and!; try reflexivity.
        exists msg, now, replicas. split; [reflexivity|].
        apply lookup_insert_eq.
      * left. now apply lookup_insert_ne.
    + intros [= <- <-]. split; [lia|]. now left.
  - destruct (on_message_cases self msg sender)
      as [(op & rid & replica & c & Hr)|[_ (s1 & o1 & Ho & Hp & Hc)]].
    + rewrite (on_message_response _ sender self _ _ _ _ Hr).
      destruct (_pending_requests self !! rid) as [p|] eqn:Hl.
      * destruct (accepted op p) eqn:Ha.
        -- rewrite (handle_response_accepted _ _ _ _ _ _ Hl Ha).
           destruct (decide (request_id = rid)) as [->|Hne].
           ++ intros H. split.
              ** destruct (quorum_reached _); injection H as <- <-;
                   simpl; lia.
              ** right; right. exists msg, sender, op, replica, c, p.
                 split_and!; try done. cbv zeta.
                 destruct (quorum_reached _); injection H as <- <-; simpl.
                 --- split; [apply lookup_delete_eq | reflexivity].
                 --- split; [apply lookup_insert_eq | reflexivity].
           ++ destruct (quorum_reached _); intros [= <- <-]; simpl;
                (split; [lia|]); left.
              ** now apply lookup_delete_ne.
              ** now apply lookup_insert_ne.
        -- rewrite (handle_response_rejected _ _ _ _ _ _ Hl Ha).
           intros [= <- <-]. split; [lia|]. now left.
      * rewrite (handle_response_unknown _ _ _ _ _ Hl).
        intros [= <- <-]. split; [lia|]. now left.
    + rewrite Ho. intros [= <- <-]. rewrite Hc, Hp. split; [lia|]. now left.
Qed.

Lemma wf_init node_id nodes : wf (init node_id nodes).
Proof.
  split; simpl; [lia|]. intros request_id pending H.
  rewrite lookup_empty in H. discriminate.
Qed.

Lemma wf_handle self ev self' out :
  wf self -> handle self ev = Some (self', out) -> wf self'.
Proof.
  intros [Hc Hwf] H. split.
  - pose proof (handle_table _ _ _ _ 0 H) as [Hle _]. lia.
  - intros rid p Hp.
    destruct (handle_table _ _ _ _ rid H)
      as [Hle [Hsame|[(-> & Hcnt & msg & now & reps & _ & Hnew)
                     |(msg & sender & op & replica & c & p0 & _ & _ & Hp0
                       & _ & Hrec)]]].
    + rewrite Hsame in Hp. destruct (Hwf _ _ Hp) as [Hr Hn].
      split; [lia | exact Hn].
    + rewrite Hnew in Hp. injection Hp as <-.
      rewrite new_pending_responses.
      split_and!; [lia | lia | apply NoDup_nil_2 | now left].
    + cbv zeta in Hrec.
      destruct (quorum_reached _) eqn:Hq; destruct Hrec as [Hrec _];
        [congruence|].
      rewrite Hrec in Hp. injection Hp as <-.
      destruct (Hwf _ _ Hp0) as (Hr & Hn & _).
      split_and!; [lia | lia | simpl; now apply dict_set_NoDup | now right].
Qed.

Lemma wf_run evs : forall self self' out,
  wf self -> run self evs = Some (self', out) -> wf self'.
Proof.
  induction evs as [|ev evs IH]; simpl; intros self self' out Hwf H.
  - now injection H as <- <-.
  - destruct (handle self ev) as [[s1 o1]|] eqn:Hh; [|discriminate].
    destruct (run s1 evs) as [[s2 o2]|] eqn:Hr; [|discriminate].
    injection H as <- <-.
    exact (IH _ _ _ (wf_handle _ _ _ _ Hwf Hh) Hr).
Qed.

(** An id below the counter that has no record never gets one again. *)
Lemma finalized_handle self ev self' out request_id :
  request_id < _request_counter self ->
  _pending_requests self !! request_id = None ->
  handle self ev = Some (self', out) ->
  request_id < _request_counter self'
  /\ _pending_requests self' !! request_id = None.
Proof.
  intros Hlt Hnone H.
  destruct (handle_table _ _ _ _ request_id H)
    as [Hle [Hsame|[(-> & _)
                   |(msg & sender & op & replica & c & p0 & _ & _ & Hp0 & _)]]].
  - split; [lia | congruence].
  - lia.
  - congruence.
Qed.

Lemma finalized_run evs : forall self self' out request_id,
  request_id < _request_counter self ->
  _pending_requests self !! request_id = None ->
  run self evs = Some (self', out) ->
  request_id < _request_counter self'
  /\ _pending_requests self' !! request_id = None.
Proof.
  induction evs as [|ev evs IH]; simpl; intros self self' out rid Hlt Hn H.
  - injection H as <- <-. now split.
  - destruct (handle self ev) as [[s1 o1]|] eqn:Hh; [|discriminate].
    destruct (run s1 evs) as [[s2 o2]|] eqn:Hr; [|discriminate].
    injection H as <- <-.
    destruct (finalized_handle _ _ _ _ _ Hlt Hn Hh) as [Hlt1 Hn1].
    exact (IH _ _ _ _ Hlt1 Hn1 Hr).
Qed.

(** A response for an id without a record is dropped. *)
Lemma response_without_record_dropped self msg sender op request_id replica c :
  response_of msg = Some (op, request_id, replica, c) ->
  _pending_requests self !! request_id = None ->
  on_message self msg sender = Some (self, []).
Proof.
  intros Hr Hn. rewrite (on_message_response _ sender self _ _ _ _ Hr).
  now apply handle_response_unknown.
Qed.

(** C7. When a response completes a request, the finalizer removes its
    record; after that, whatever events the node handles, the id has no
    record again, so no finalizer runs for it a second time and every later
    [REPLICA_*_RESP] naming it is dropped with the node unchanged.  The same
    holds for a response naming an id that the counter never handed out. *)
Theorem finalization_at_most_once
    (self : StorageNode) (msg : Message) (sender : NodeId) (op : Operation)
    (request_id : Z) (replica : NodeId) (c : Cell)
    (pending : PendingRequest.t) :
  wf self ->
  response_of msg = Some (op, request_id, replica, c) ->
  _pending_requests self !! request_id = Some pending ->
  accepted op pending = true ->
  quorum_reached
    (PendingRequest.set_responses
       (dict_set replica c (PendingRequest.responses pending)) pending)
  = true ->
  exists self1,
    on_message self msg sender
    = Some (self1,
            finalizer_output op
              (PendingRequest.set_responses
                 (dict_set replica c (PendingRequest.responses pending))
                 pending))
    /\ _pending_requests self1 !! request_id = None
    /\ forall evs self2 out2,
         run self1 evs = Some (self2, out2) ->
         _pending_requests self2 !! request_id = None
         /\ (forall msg' sender' op' replica' c',
               response_of msg' = Some (op', request_id, replica', c') ->
               on_message self2 msg' sender' = Some (self2, []))
         /\ (forall msg' sender' op' request_id' replica' c',
               response_of msg' = Some (op', request_id', replica', c') ->
               ~ (0 <= request_id' < _request_counter self2) ->
               on_message self2 msg' sender' = Some (self2, [])).
Proof.
  intros Hwf Hr Hp Ha Hq.
  pose proof (on_message_response _ sender self _ _ _ _ Hr) as Hm.
  rewrite (handle_response_accepted _ _ _ _ _ _ Hp Ha), Hq in Hm.
  eexists. split; [exact Hm|].
  assert (Hwf1 : wf (set_pending_requests
                       (delete request_id (_pending_requests self)) self)).
  { exact (wf_handle self (Peer msg sender) _ _ Hwf Hm). }
  split; [apply lookup_delete_eq|].
  intros evs self2 out2 Hrun.
  assert (Hlt : request_id < _request_counter self)
    by (destruct Hwf as [_ Hw]; destruct (Hw _ _ Hp); lia).
  destruct (finalized_run evs
              (set_pending_requests
                 (delete request_id (_pending_requests self)) self)
              self2 out2 request_id Hlt (lookup_delete_eq _ _) Hrun)
    as [_ Hn].
  split; [exact Hn|]. split.
  - intros msg' sender' op' replica' c' Hr'.
    exact (response_without_record_dropped _ _ _ _ _ _ _ Hr' Hn).
  - intros msg' sender' op' rid' replica' c' Hr' Hout.
    apply (response_without_record_dropped _ _ _ _ _ _ _ Hr').
    destruct (_pending_requests self2 !! rid') as [p'|] eqn:E;
      [|reflexivity].
    destruct (wf_run _ _ _ _ Hwf1 Hrun) as [_ Hw2].
    destruct (Hw2 _ _ E) as [? _]. contradiction.
Qed.

Lemma example_node_reached :
  handle (init "0" ["0"; "1"; "2"]) (Local (GET "x" 1) 7)
  = Some (example_node,
          [ Send (REPLICA_GET_REQ "x" 0 "0") "0";
            Send (REPLICA_GET_REQ "x" 0 "0") "1";
            Send (REPLICA_GET_REQ "x" 0 "0") "2" ]).
Proof. vm_compute. reflexivity. Qed.

Lemma example_node_wf : wf example_node.
Proof. exact (wf_handle _ _ _ _ (wf_init _ _) example_node_reached). Qed.

Lemma finalization_at_most_once_witness :
  exists self1,
    on_message example_node (REPLICA_GET_RESP "x" None (-1) 0 "0") "0"
    = Some (self1, [SendLocal (GET_RESP "x" None)])
    /\ _pending_requests self1 !! 0 = None
    /\ on_message self1 (REPLICA_GET_RESP "x" (Some "late") 3 0 "1") "1"
       = Some (self1, []).
Proof.
  destruct (finalization_at_most_once example_node
              (REPLICA_GET_RESP "x" None (-1) 0 "0") "0" OpGET 0 "0"
              (None, -1)
              (PendingRequest.mk OpGET "x" None ["0"; "1"; "2"] 1 [] 7 None)
              example_node_wf eq_refl eq_refl eq_refl eq_refl)
    as (self1 & H1 & H2 & H3).
  exists self1. split; [exact H1|]. split; [exact H2|].
  destruct (H3 [] self1 [] eq_refl) as (_ & H4 & _).
  exact (H4 (REPLICA_GET_RESP "x" (Some "late") 3 0 "1") "1" OpGET "1"
            (Some "late", 3) eq_refl).
Defined.

(** ** Duplicate responses *)

Lemma handle_response_twice op self request_id replica c :
  exists self1 out1,
    handle_response op self request_id replica c = Some (self1, out1)
    /\ handle_response op self1 request_id replica c = Some (self1, []).
Proof.
  destruct (_pending_requests self !! request_id) as [p|] eqn:Hl.
  - destruct (accepted op p) eqn:Ha.
    + rewrite (handle_response_accepted _ _ _ _ _ _ Hl Ha).
      set (p' := PendingRequest.set_responses _ p).
      destruct (quorum_reached p') eqn:Hq.
      * eexists _, _. split; [reflexivity|].
        apply handle_response_unknown. simpl. apply lookup_delete_eq.
      * eexists _, _. split; [reflexivity|].
        assert (Hl' : _pending_requests
                        (set_pending_requests
                           (<[request_id := p']> (_pending_requests self))
                           self) !! request_id = Some p')
          by (simpl; apply lookup_insert_eq).
        assert (Ha' : accepted op p' = true) by exact Ha.
        rewrite (handle_response_accepted _ _ _ _ _ _ Hl' Ha').
        assert (Hp' : PendingRequest.set_responses
                        (dict_set replica c (PendingRequest.responses p'))
                        p' = p').
        { unfold p', PendingRequest.set_responses; simpl.
          now rewrite dict_set_twice. }
        rewrite Hp', Hq. unfold set_pending_requests; simpl.
        now rewrite insert_insert_eq.
    + rewrite (handle_response_rejected _ _ _ _ _ _ Hl Ha).
      eexists _, _. split; [reflexivity|].
      now apply (handle_response_rejected _ _ _ _ _ _ Hl Ha).
  - rewrite (handle_response_unknown _ _ _ _ _ Hl).
    eexists _, _. split; [reflexivity|].
    now apply handle_response_unknown.
Qed.

Lemma dict_set_same {V : Type} (k : string) (v : V) d :
  dict_get k d = Some v -> dict_set k v d = d.
Proof.
  induction d as [|[k' v'] d IH]; simpl; [discriminate|].
  destruct (decide (k' = k)) as [->|Hne].
  - now intros [= ->].
  - intros H. now rewrite IH.
Qed.

(** A response that has had its effect is a no-op. *)
Lemma settled_noop op self request_id replica c :
  wf self ->
  settled op request_id replica c self ->
  handle_response op self request_id replica c = Some (self, []).
Proof.
  intros [_ Hwf] [_ [Hn|(p & Hp & [Ha|Hslot])]].
  - now apply handle_response_unknown.
  - now apply (handle_response_rejected _ _ _ _ _ _ Hp).
  - destruct (accepted op p) eqn:Ha;
      [|now apply (handle_response_rejected _ _ _ _ _ _ Hp)].
    rewrite (handle_response_accepted _ _ _ _ _ _ Hp Ha).
    rewrite (dict_set_same _ _ _ Hslot).
    assert (Hp' : PendingRequest.set_responses
                    (PendingRequest.responses p) p = p) by now destruct p.
    rewrite Hp'.
    destruct (Hwf _ _ Hp) as (_ & _ & [Hnil|Hq]).
    + rewrite Hnil in Hslot. discriminate.
    + rewrite Hq. rewrite insert_id by exact Hp. now destruct self.
Qed.

Lemma settled_handle op self ev self' out request_id replica c :
  settled op request_id replica c self ->
  ~ other_answer request_id replica c ev ->
  handle self ev = Some (self', out) ->
  settled op request_id replica c self'.
Proof.
  intros [Hlt Hs] Hno H.
  destruct (handle_table _ _ _ _ request_id H)
    as [Hle [Hsame|[(-> & _)
                   |(msg & sender & op' & replica' & c' & p0 & -> & Hr & Hp0
                     & Ha' & Hrec)]]].
  - split; [lia|]. now rewrite Hsame.
  - lia.
  - split; [lia|]. cbv zeta in Hrec.
    destruct (quorum_reached _); destruct Hrec as [Hrec _]; [now left|].
    right. eexists. split; [exact Hrec|].
    destruct Hs as [Hn|(p & Hp & Hcase)]; [congruence|].
    assert (p = p0) as -> by congruence.
    destruct Hcase as [Ha|Hslot]; [now left|]. right. simpl.
    destruct (decide (replica' = replica)) as [->|Hne].
    + destruct (decide (c' = c)) as [->|Hc].
      * apply dict_get_set_eq.
      * exfalso. apply Hno. simpl. eauto.
    + rewrite dict_get_set_ne by congruence. exact Hslot.
Qed.

Lemma settled_run op evs : forall self self' out request_id replica c,
  settled op request_id replica c self ->
  Forall (fun ev => ~ other_answer request_id replica c ev) evs ->
  run self evs = Some (self', out) ->
  settled op request_id replica c self'.
Proof.
  induction evs as [|ev evs IH]; simpl;
    intros self self' out rid replica c Hs Hall H.
  - now injection H as <- <-.
  - destruct (handle self ev) as [[s1 o1]|] eqn:Hh; [|discriminate].
    destruct (run s1 evs) as [[s2 o2]|] eqn:Hr; [|discriminate].
    injection H as <- <-.
    apply Forall_cons in Hall as [Hev Hall].
    exact (IH _ _ _ _ _ _ (settled_handle _ _ _ _ _ _ _ _ Hs Hev Hh) Hall Hr).
Qed.

(** Handling a response for a request in the table settles it. *)
Lemma settled_after op self request_id replica c pending self1 out1 :
  wf self ->
  _pending_requests self !! request_id = Some pending ->
  handle_response op self request_id replica c = Some (self1, out1) ->
  settled op request_id replica c self1.
Proof.
  intros [_ Hwf] Hp H. destruct (Hwf _ _ Hp) as (Hr & _).
  destruct (accepted op pending) eqn:Ha.
  - rewrite (handle_response_accepted _ _ _ _ _ _ Hp Ha) in H.
    destruct (quorum_reached _); injection H as <- <-; (split; [simpl; lia|]).
    + left. apply lookup_delete_eq.
    + right. eexists. split; [apply lookup_insert_eq|].
      right. apply dict_get_set_eq.
  - rewrite (handle_response_rejected _ _ _ _ _ _ Hp Ha) in H.
    injection H as <- <-. split; [lia|]. right. eauto.
Qed.

Lemma example_quorum_2_reached :
  on_local_message (init "0" ["0"; "1"; "2"]) (GET "x" 2) 7
  = Some (example_quorum_2,
          [ Send (REPLICA_GET_REQ "x" 0 "0") "0";
            Send (REPLICA_GET_REQ "x" 0 "0") "1";
            Send (REPLICA_GET_REQ "x" 0 "0") "2" ]).
Proof. vm_compute. reflexivity. Qed.

(** C8, as stated, fails in its last part.  Replica "1" answers one GET
    twice, "a" stamped 2 and then "b" stamped 4, because its sub-request was
    delivered twice.  When the coordinator handles the first answer once,
    the client is answered "b"; when it handles the first answer a second
    time after the other answer, the slot of "1" goes back to "a" and the
    client is answered "a". *)
Lemma duplicate_after_other_answer_changes_reply :
  (fun sys => [sys_sent sys !! 7%nat; sys_sent sys !! 12%nat;
               sys_sent sys !! 13%nat]) <$>
    sys_run (sys_init ["0"; "1"; "2"]) duplicate_schedule
  = Some [ Some (mkPacket "0" "1" (REPLICA_GET_RESP "x" (Some "a") 2 1 "1"));
           Some (mkPacket "0" "1" (REPLICA_GET_RESP "x" (Some "b") 4 1 "1"));
           Some (mkPacket "0" "2" (REPLICA_GET_RESP "x" None (-1) 1 "2")) ]
  /\ sys_replies <$>
       sys_run (sys_init ["0"; "1"; "2"])
         (duplicate_schedule ++ [Deliver 7; Deliver 12; Deliver 13])
     = Some [("0", GET_RESP "x" (Some "b"))]
  /\ sys_replies <$>
       sys_run (sys_init ["0"; "1"; "2"])
         (duplicate_schedule ++ [Deliver 7; Deliver 12; Deliver 7; Deliver 13])
     = Some [("0", GET_RESP "x" (Some "a"))]
  /\ outputs
       (run example_quorum_2
          [ Peer (REPLICA_GET_RESP "x" (Some "a") 2 0 "1") "1";
            Peer (REPLICA_GET_RESP "x" (Some "b") 4 0 "1") "1";
            Peer (REPLICA_GET_RESP "x" None (-1) 0 "2") "2" ])
     <> outputs
          (run example_quorum_2
             [ Peer (REPLICA_GET_RESP "x" (Some "a") 2 0 "1") "1";
               Peer (REPLICA_GET_RESP "x" (Some "b") 4 0 "1") "1";
               Peer (REPLICA_GET_RESP "x" (Some "a") 2 0 "1") "1";
               Peer (REPLICA_GET_RESP "x" None (-1) 0 "2") "2" ]).
Proof. split_and!; vm_compute; congruence. Qed.

(** C8, amended. For an accepted response to a pending request: the slot of
    the answering replica holds the cell of the latest response and the
    other slots are untouched; the number of slots is the number of distinct
    replicas that have answered, so an answer from a replica that had
    already answered does not change it; the finalizer runs exactly when
    that number reaches the quorum; and a second delivery of the same
    response, right away or after other events among which that replica
    gave no different answer to the request, changes nothing and sends
    nothing. *)
Theorem duplicate_response_overwrites_slot
    (self : StorageNode) (msg : Message) (sender : NodeId) (op : Operation)
    (request_id : Z) (replica : NodeId) (c : Cell)
    (pending : PendingRequest.t) :
  wf self ->
  response_of msg = Some (op, request_id, replica, c) ->
  _pending_requests self !! request_id = Some pending ->
  accepted op pending = true ->
  let pending' :=
    PendingRequest.set_responses
      (dict_set replica c (PendingRequest.responses pending)) pending in
  dict_get replica (PendingRequest.responses pending') = Some c
  /\ (forall other,
        other <> replica ->
        dict_get other (PendingRequest.responses pending')
        = dict_get other (PendingRequest.responses pending))
  /\ length (PendingRequest.responses pending')
     = size ({[replica]} ∪ answered pending)
  /\ (replica ∈ answered pending ->
      length (PendingRequest.responses pending')
      = length (PendingRequest.responses pending))
  /\ on_message self msg sender
     = (if Z.of_nat (size ({[replica]} ∪ answered pending))
           >=? PendingRequest.quorum pending
        then Some (set_pending_requests
                     (delete request_id (_pending_requests self)) self,
                   finalizer_output op pending')
        else Some (set_pending_requests
                     (<[request_id := pending']> (_pending_requests self))
                     self,
                   []))
  /\ exists self1 out1,
       on_message self msg sender = Some (self1, out1)
       /\ on_message self1 msg sender = Some (self1, [])
       /\ forall evs self2 out2 sender',
            Forall (fun ev => ~ other_answer request_id replica c ev) evs ->
            run self1 evs = Some (self2, out2) ->
            on_message self2 msg sender' = Some (self2, []).
Proof.
  intros Hwf Hr Hp Ha pending'.
  destruct (proj2 Hwf _ _ Hp) as (_ & Hnd & _).
  assert (Hlen : length (PendingRequest.responses pending')
                 = size ({[replica]} ∪ answered pending)).
  { unfold answered. rewrite <- (dict_set_keys replica c).
    apply dict_length_distinct. simpl. now apply dict_set_NoDup. }
  split_and!.
  - apply dict_get_set_eq.
  - intros other Hne. now apply dict_get_set_ne.
  - exact Hlen.
  - intros Hin. rewrite Hlen.
    rewrite (dict_length_distinct _ Hnd). fold (answered pending).
    f_equal. set_solver.
  - rewrite (on_message_response _ sender self _ _ _ _ Hr).
    rewrite (handle_response_accepted _ _ _ _ _ _ Hp Ha).
    fold pending'. unfold quorum_reached. rewrite Hlen. reflexivity.
  - rewrite (on_message_response _ sender self _ _ _ _ Hr).
    destruct (handle_response_twice op self request_id replica c)
      as (self1 & out1 & H1 & H2).
    exists self1, out1. split; [exact H1|]. split.
    + now rewrite (on_message_response _ sender self1 _ _ _ _ Hr).
    + intros evs self2 out2 sender' Hall Hrun.
      rewrite (on_message_response _ sender' self2 _ _ _ _ Hr).
      assert (Hwf1 : wf self1).
      { apply (wf_handle self (Peer msg sender) self1 out1 Hwf). simpl.
        now rewrite (on_message_response _ sender self _ _ _ _ Hr). }
      apply settled_noop.
      * exact (wf_run _ _ _ _ Hwf1 Hrun).
      * apply (settled_run op evs self1 self2 out2); [|exact Hall|exact Hrun].
        exact (settled_after _ _ _ _ _ _ _ _ Hwf Hp H1).
Qed.

Lemma example_waiting_reached :
  run (init "0" ["0"; "1"; "2"])
    [ Local (GET "x" 3) 7; Peer (REPLICA_GET_RESP "x" (Some "a") 2 0 "0") "0" ]
  = Some (example_waiting,
          [ Send (REPLICA_GET_REQ "x" 0 "0") "0";
            Send (REPLICA_GET_REQ "x" 0 "0") "1";
            Send (REPLICA_GET_REQ "x" 0 "0") "2" ]).
Proof. vm_compute. reflexivity. Qed.

Lemma example_waiting_wf : wf example_waiting.
Proof. exact (wf_run _ _ _ _ (wf_init _ _) example_waiting_reached). Qed.

(** Replica "0" answers a second time, with another cell: its slot is
    overwritten and the request still waits. *)
Lemma duplicate_response_overwrites_slot_witness :
  on_message example_waiting (REPLICA_GET_RESP "x" (Some "b") 4 0 "0") "0"
  = Some (set_pending_requests
            {[ 0 := PendingRequest.mk OpGET "x" None ["0"; "1"; "2"] 3
                      [("0", (Some "b", 4))] 7 None ]}
            example_waiting,
          []).
Proof.
  destruct (duplicate_response_overwrites_slot example_waiting
              (REPLICA_GET_RESP "x" (Some "b") 4 0 "0") "0" OpGET 0 "0"
              (Some "b", 4)
              (PendingRequest.mk OpGET "x" None ["0"; "1"; "2"] 3
                 [("0", (Some "a", 2))] 7 None)
              example_waiting_wf eq_refl eq_refl eq_refl)
    as (_ & _ & _ & _ & H & _).
  rewrite H. vm_compute. reflexivity.
Defined.

(** ** The quorum of a request *)

Lemma dict_set_nonempty {V : Type} (k : string) (v : V) d :
  (1 <= length (dict_set k v d))%nat.
Proof.
  destruct d as [|[k' v'] d]; simpl; [lia|].
  destruct (decide (k' = k)); simpl; lia.
Qed.

(** With a quorum of at most 1, any accepted response completes the
    request. *)
Lemma accepted_response_completes self msg sender op request_id replica c
    pending :
  _pending_requests self !! request_id = Some pending ->
  PendingRequest.quorum pending <= 1 ->
  response_of msg = Some (op, request_id, replica, c) ->
  accepted op pending = true ->
  on_message self msg sender
  = Some (set_pending_requests (delete request_id (_pending_requests self))
            self,
          finalizer_output op
            (PendingRequest.set_responses
               (dict_set replica c (PendingRequest.responses pending))
               pending)).
Proof.
  intros Hp Hq Hr Ha.
  rewrite (on_message_response _ sender self _ _ _ _ Hr).
  rewrite (handle_response_accepted _ _ _ _ _ _ Hp Ha).
  unfold quorum_reached; simpl.
  pose proof (dict_set_nonempty replica c (PendingRequest.responses pending)).
  destruct (Z.geb_spec
              (Z.of_nat (length (dict_set replica c
                                   (PendingRequest.responses pending))))
              (PendingRequest.quorum pending)); [reflexivity | lia].
Qed.

(** An event that is not an accepted response for a request leaves its
    record as it is. *)
Lemma pending_untouched self ev self' out request_id pending :
  wf self ->
  _pending_requests self !! request_id = Some pending ->
  ~ matching request_id pending ev ->
  handle self ev = Some (self', out) ->
  _pending_requests self' !! request_id = Some pending.
Proof.
  intros [_ Hwf] Hp Hnm H.
  destruct (handle_table _ _ _ _ request_id H)
    as [_ [Hsame|[(-> & _)
                 |(msg & sender & op & replica & c & p0 & -> & Hr & Hp0 & Ha
                   & _)]]].
  - congruence.
  - destruct (Hwf _ _ Hp). lia.
  - exfalso. apply Hnm. simpl. exists op, replica, c.
    split; [exact Hr | congruence].
Qed.

Lemma pending_untouched_run evs : forall self self' out request_id pending,
  wf self ->
  _pending_requests self !! request_id = Some pending ->
  Forall (fun ev => ~ matching request_id pending ev) evs ->
  run self evs = Some (self', out) ->
  _pending_requests self' !! request_id = Some pending.
Proof.
  induction evs as [|ev evs IH]; simpl;
    intros self self' out rid p Hwf Hp Hall H.
  - now injection H as <- <-.
  - destruct (handle self ev) as [[s1 o1]|] eqn:Hh; [|discriminate].
    destruct (run s1 evs) as [[s2 o2]|] eqn:Hr; [|discriminate].
    injection H as <- <-.
    apply Forall_cons in Hall as [Hev Hall].
    exact (IH _ _ _ _ _ (wf_handle _ _ _ _ Hwf Hh)
             (pending_untouched _ _ _ _ _ _ Hwf Hp Hev Hh) Hall Hr).
Qed.

Lemma names_request_dec request_id ev :
  names_request request_id ev \/ ~ names_request request_id ev.
Proof.
  destruct ev as [msg now|msg sender]; simpl; [tauto|].
  destruct (response_of msg) as [[[[op rid] replica] c]|].
  - destruct (decide (rid = request_id)) as [->|Hne].
    + left. eauto.
    + right. intros (? & ? & ? & [= ]). congruence.
  - right. intros (? & ? & ? & [= ]).
Qed.

(** A response from the placement for a stranded request is recorded
    without any output, and the request stays stranded. *)
Lemma stranded_response self msg sender op request_id replica c replicas
    quorum :
  wf self ->
  stranded request_id replicas quorum self ->
  Z.of_nat (size (list_to_set (C := gset string) replicas)) < quorum ->
  response_of msg = Some (op, request_id, replica, c) ->
  replica ∈ replicas ->
  exists self',
    on_message self msg sender = Some (self', [])
    /\ stranded request_id replicas quorum self'.
Proof.
  intros [_ Hwf] (p & Hp & Hreps & Hq & Hsub) Hlt Hr Hin.
  rewrite (on_message_response _ sender self _ _ _ _ Hr).
  destruct (accepted op p) eqn:Ha.
  - rewrite (handle_response_accepted _ _ _ _ _ _ Hp Ha).
    set (p' := PendingRequest.set_responses _ p).
    destruct (Hwf _ _ Hp) as (_ & Hnd & _).
    assert (Hans : answered p' = {[replica]} ∪ answered p)
      by apply (dict_set_keys replica c).
    assert (Hsub' : answered p' ⊆ list_to_set replicas)
      by (rewrite Hans; set_solver).
    assert (Hq' : quorum_reached p' = false).
    { unfold quorum_reached.
      rewrite (dict_length_distinct (PendingRequest.responses p'))
        by (simpl; now apply dict_set_NoDup).
      fold (answered p').
      pose proof (subseteq_size _ _ Hsub') as Hsz.
      change (PendingRequest.quorum p') with (PendingRequest.quorum p).
      destruct (Z.geb_spec (Z.of_nat (size (answered p')))
                  (PendingRequest.quorum p)); [lia | reflexivity]. }
    rewrite Hq'. eexists. split; [reflexivity|].
    exists p'. split_and!; try done. simpl. apply lookup_insert_eq.
  - rewrite (handle_response_rejected _ _ _ _ _ _ Hp Ha).
    eexists. split; [reflexivity|]. exists p. split_and!; done.
Qed.

Lemma stranded_handle self ev self' out request_id replicas quorum :
  wf self ->
  stranded request_id replicas quorum self ->
  Z.of_nat (size (list_to_set (C := gset string) replicas)) < quorum ->
  from_placement request_id replicas ev ->
  handle self ev = Some (self', out) ->
  stranded request_id replicas quorum self'
  /\ (names_request request_id ev -> out = []).
Proof.
  intros Hwf Hst Hlt Hfrom H.
  destruct (names_request_dec request_id ev) as [Hn|Hn].
  - destruct ev as [msg now|msg sender]; simpl in Hn; [contradiction|].
    destruct Hn as (op & replica & c & Hr).
    destruct (stranded_response self msg sender op request_id replica c
                replicas quorum Hwf Hst Hlt Hr (Hfrom _ _ _ Hr))
      as (s1 & Hs1 & Hst1).
    simpl in H. rewrite Hs1 in H. injection H as <- <-. now split.
  - split; [|contradiction].
    destruct Hst as (p & Hp & Hreps & Hq & Hsub).
    exists p. split_and!; try done.
    apply (pending_untouched self ev self' out _ _ Hwf Hp); [|exact H].
    destruct ev as [msg now|msg sender]; simpl; [tauto|].
    intros (op & replica & c & Hr & _). apply Hn. simpl. eauto.
Qed.

Lemma stranded_run evs : forall self self' out request_id replicas quorum,
  wf self ->
  stranded request_id replicas quorum self ->
  Z.of_nat (size (list_to_set (C := gset string) replicas)) < quorum ->
  Forall (from_placement request_id replicas) evs ->
  run self evs = Some (self', out) ->
  wf self' /\ stranded request_id replicas quorum self'.
Proof.
  induction evs as [|ev evs IH]; simpl;
    intros self self' out rid reps q Hwf Hst Hlt Hall H.
  - injection H as <- <-. now split.
  - destruct (handle self ev) as [[s1 o1]|] eqn:Hh; [|discriminate].
    destruct (run s1 evs) as [[s2 o2]|] eqn:Hr; [|discriminate].
    injection H as <- <-.
    apply Forall_cons in Hall as [Hev Hall].
    destruct (stranded_handle _ _ _ _ _ _ _ Hwf Hst Hlt Hev Hh) as [Hst1 _].
    exact (IH _ _ _ _ _ _ (wf_handle _ _ _ _ Hwf Hh) Hst1 Hlt Hall Hr).
Qed.

(** ** What the handlers send *)

Lemma handle_id self ev self' out :
  handle self ev = Some (self', out) -> _id self' = _id self.
Proof.
  destruct ev as [msg now|msg sender]; simpl.
  - rewrite on_local_message_client. unfold handle_client.
    destruct (client_operation msg) as [[[op key] q]|];
      [destruct (get_key_replicas key (_node_count self)); [|discriminate]|];
      intros [= <- <-]; reflexivity.
  - destruct (on_message_cases self msg sender)
      as [(op & rid & replica & c & Hr)|[Hr _]].
    + rewrite (on_message_response _ sender self _ _ _ _ Hr).
      destruct (_pending_requests self !! rid) as [p|] eqn:Hl.
      * destruct (accepted op p) eqn:Ha.
        -- rewrite (handle_response_accepted _ _ _ _ _ _ Hl Ha).
           destruct (quorum_reached _); intros [= <- <-]; reflexivity.
        -- rewrite (handle_response_rejected _ _ _ _ _ _ Hl Ha).
           now intros [= <- <-].
      * rewrite (handle_response_unknown _ _ _ _ _ Hl). now intros [= <- <-].
    + destruct msg; simpl in Hr |- *; try discriminate;
        try (now intros [= <- <-]);
        unfold _handle_replica_get_req, _handle_replica_put_req,
          _handle_replica_delete_req, _handle_replica_read_repair;
        destruct (data_get (_data self) key) as [cv ct];
        try destruct (should_update _ _ _ _);
        intros [= <- <-]; reflexivity.
Qed.

(** A local handler sends the sub-requests of the request it creates, to
    the replicas of the placement. *)
Lemma client_sends self msg now self' out m d :
  on_local_message self msg now = Some (self', out) ->
  Send m d ∈ out ->
  sub_request_of m = Some (_id self, _request_counter self)
  /\ response_of m = None
  /\ _request_counter self' = _request_counter self + 1
  /\ exists op key q replicas,
       client_operation msg = Some (op, key, q)
       /\ get_key_replicas key (_node_count self) = Some replicas
       /\ d ∈ replicas.
Proof.
  rewrite on_local_message_client. unfold handle_client.
  destruct (client_operation msg) as [[[op key] q]|] eqn:Hop.
  - destruct (get_key_replicas key (_node_count self)) as [replicas|] eqn:Hrep;
      [|discriminate].
    intros [= <- <-] Hin.
    apply list_elem_of_fmap in Hin as (replica & [= -> ->] & Hin).
    split_and!; try (destruct msg; simpl in Hop; try discriminate; reflexivity).
    exists op, key, q, replicas. split_and!; done.
  - intros [= <- <-] Hin. now apply elem_of_nil in Hin.
Qed.

Lemma repairs_sends key best responses m d :
  Send m d ∈ repairs key best responses ->
  m = REPLICA_READ_REPAIR key best.1 best.2.
Proof.
  unfold repairs. rewrite list_elem_of_In, in_flat_map.
  intros ([k cell] & _ & Hin). simpl in Hin.
  destruct (needs_repair best cell); simpl in Hin; [|contradiction].
  destruct Hin as [[= <- <-]|[]]. reflexivity.
Qed.

Lemma finalizer_output_sends op pending m d :
  Send m d ∈ finalizer_output op pending ->
  exists key value timestamp, m = REPLICA_READ_REPAIR key value timestamp.
Proof.
  destruct op; simpl.
  - rewrite elem_of_app, list_elem_of_singleton.
    intros [Hin|[=]]. apply repairs_sends in Hin. eauto.
  - rewrite list_elem_of_singleton. intros [=].
  - rewrite list_elem_of_singleton. intros [=].
Qed.

Lemma handle_response_sends op self request_id replica c self' out m d :
  handle_response op self request_id replica c = Some (self', out) ->
  Send m d ∈ out ->
  exists key value timestamp, m = REPLICA_READ_REPAIR key value timestamp.
Proof.
  destruct (_pending_requests self !! request_id) as [p|] eqn:Hl.
  - destruct (accepted op p) eqn:Ha.
    + rewrite (handle_response_accepted _ _ _ _ _ _ Hl Ha).
      destruct (quorum_reached _); intros [= <- <-] Hin.
      * exact (finalizer_output_sends _ _ _ _ Hin).
      * now apply elem_of_nil in Hin.
    + rewrite (handle_response_rejected _ _ _ _ _ _ Hl Ha).
      intros [= <- <-] Hin. now apply elem_of_nil in Hin.
  - rewrite (handle_response_unknown _ _ _ _ _ Hl).
    intros [= <- <-] Hin. now apply elem_of_nil in Hin.
Qed.

(** A peer handler sends no sub-request, and sends a response only in
    answer to a sub-request, to its coordinator, under the same request id
    and with the node's own name as replica. *)
Lemma peer_sends self msg sender self' out m d :
  on_message self msg sender = Some (self', out) ->
  Send m d ∈ out ->
  sub_request_of m = None
  /\ forall op r replica c,
       response_of m = Some (op, r, replica, c) ->
       replica = _id self /\ sub_request_of msg = Some (d, r).
Proof.
  intros H Hin.
  destruct (response_of msg) as [[[[op rid] replica] c]|] eqn:Hr.
  - rewrite (on_message_response _ sender self _ _ _ _ Hr) in H.
    destruct (handle_response_sends _ _ _ _ _ _ _ _ _ H Hin)
      as (k & v & t & ->).
    split; [reflexivity | discriminate].
  - destruct msg; simpl in Hr, H; try discriminate;
      try (injection H as <- <-; now apply elem_of_nil in Hin);
      unfold _handle_replica_get_req, _handle_replica_put_req,
        _handle_replica_delete_req, _handle_replica_read_repair in H;
      destruct (data_get (_data self) key) as [cv ct];
      try destruct (should_update _ _ _ _);
      injection H as <- <-;
      try (now apply elem_of_nil in Hin);
      apply list_elem_of_singleton in Hin; injection Hin as -> ->;
      (split; [reflexivity|]); simpl; intros ? ? ? ? [= <- <- <- <-];
      split; reflexivity.
Qed.

(** ** The system *)

Lemma elem_of_packets n out p :
  p ∈ packets n out <-> exists m d, Send m d ∈ out /\ p = mkPacket d n m.
Proof.
  unfold packets. rewrite list_elem_of_In, in_flat_map. split.
  - intros ([m d|m] & Hin & Hp); simpl in Hp; [|contradiction].
    destruct Hp as [<-|[]]. exists m, d.
    split; [now apply list_elem_of_In | reflexivity].
  - intros (m & d & Hin & ->). exists (Send m d).
    split; [now apply list_elem_of_In | now left].
Qed.

(** A step is one node handling one event; a peer event is a packet in
    transit that is addressed to the node. *)
Lemma sys_step_inv sys ch sys' :
  sys_step sys ch = Some sys' ->
  exists n self ev self' out,
    sys_nodes sys !! n = Some self
    /\ handle self ev = Some (self', out)
    /\ sys' = mkSystem (<[n := self']> (sys_nodes sys))
                (sys_sent sys ++ packets n out)
                (sys_replies sys ++ local_replies n out)
    /\ match ev with
       | Local _ _ => True
       | Peer msg sender =>
           exists p, p ∈ sys_sent sys /\ dst p = n /\ payload p = msg
      end.
Proof.
  destruct ch as [n msg now|i]; simpl.
  - destruct (sys_nodes sys !! n) as [self|] eqn:Hn; [|discriminate].
    destruct (on_local_message self msg now) as [[self' out]|] eqn:Hh;
      [|discriminate].
    intros [= <-]. exists n, self, (Local msg now), self', out.
    split_and!; done.
  - destruct (sys_sent sys !! i) as [p|] eqn:Hp; [|discriminate].
    destruct (sys_nodes sys !! dst p) as [self|] eqn:Hn; [|discriminate].
    destruct (on_message self (payload p) (src p)) as [[self' out]|] eqn:Hh;
      [|discriminate].
    intros [= <-].
    exists (dst p), self, (Peer (payload p) (src p)), self', out.
    split_and!; try done.
    exists p. split_and!; try done. eapply list_elem_of_lookup_2; eauto.
Qed.

Lemma sys_inv_init names : sys_inv (sys_init names).
Proof.
  split_and!; simpl.
  - intros n self H. apply elem_of_list_to_map_2 in H.
    apply list_elem_of_fmap in H as (n' & [= -> ->] & _).
    split; [reflexivity | apply wf_init].
  - intros p x r Hin. now apply elem_of_nil in Hin.
  - intros p op r replica c Hin. now apply elem_of_nil in Hin.
Qed.

(** A node found after a step is the node that was there before, or the
    stepping node with a counter that did not decrease. *)
Lemma counter_after_step (nodes : gmap string StorageNode) n self self'
    x sx r :
  nodes !! n = Some self ->
  _request_counter self <= _request_counter self' ->
  nodes !! x = Some sx ->
  r < _request_counter sx ->
  exists sx', <[n := self']> nodes !! x = Some sx'
              /\ r < _request_counter sx'.
Proof.
  intros Hn Hle Hx Hr. destruct (decide (n = x)) as [->|Hne].
  - exists self'. rewrite lookup_insert_eq. split; [reflexivity|].
    assert (sx = self) as -> by congruence. lia.
  - exists sx. now rewrite lookup_insert_ne.
Qed.

Lemma sys_inv_step sys ch sys' :
  sys_inv sys -> sys_step sys ch = Some sys' -> sys_inv sys'.
Proof.
  intros (Hnodes & Hreq & Hresp) Hstep.
  destruct (sys_step_inv _ _ _ Hstep)
    as (n & self & ev & self' & out & Hn & Hh & -> & Hev).
  destruct (Hnodes _ _ Hn) as [Hid Hwf].
  pose proof (handle_table _ _ _ _ 0 Hh) as [Hle _].
  split_and!; simpl.
  - intros x sx. destruct (decide (n = x)) as [->|Hne].
    + rewrite lookup_insert_eq. intros [= <-].
      split; [rewrite (handle_id _ _ _ _ Hh); exact Hid
             | exact (wf_handle _ _ _ _ Hwf Hh)].
    + rewrite lookup_insert_ne by assumption. apply Hnodes.
  - intros p x r Hin Hsub. apply elem_of_app in Hin as [Hin|Hin].
    + destruct (Hreq _ _ _ Hin Hsub) as (sx & Hx & Hr).
      exact (counter_after_step _ _ _ _ _ _ _ Hn Hle Hx Hr).
    + apply elem_of_packets in Hin as (m & d & Hin & ->). simpl in Hsub.
      destruct ev as [msg now|msg sender]; simpl in Hh.
      * destruct (client_sends _ _ _ _ _ _ _ Hh Hin) as (Hs & _ & Hc & _).
        rewrite Hs, Hid in Hsub. injection Hsub as <- <-.
        exists self'. rewrite lookup_insert_eq. split; [reflexivity | lia].
      * destruct (peer_sends _ _ _ _ _ _ _ Hh Hin) as [Hs _]. congruence.
  - intros p op r replica c Hin Hr. apply elem_of_app in Hin as [Hin|Hin].
    + destruct (Hresp _ _ _ _ _ Hin Hr) as (sx & Hx & Hlt).
      exact (counter_after_step _ _ _ _ _ _ _ Hn Hle Hx Hlt).
    + apply elem_of_packets in Hin as (m & d & Hin & ->). simpl in Hr |- *.
      destruct ev as [msg now|msg sender]; simpl in Hh.
      * destruct (client_sends _ _ _ _ _ _ _ Hh Hin) as (_ & Hnone & _).
        congruence.
      * destruct (peer_sends _ _ _ _ _ _ _ Hh Hin) as [_ Hs].
        destruct (Hs _ _ _ _ Hr) as [_ Hsub].
        destruct Hev as (p & Hp & _ & Hpay). rewrite <- Hpay in Hsub.
        destruct (Hreq _ _ _ Hp Hsub) as (sx & Hx & Hlt).
        exact (counter_after_step _ _ _ _ _ _ _ Hn Hle Hx Hlt).
Qed.

Lemma sys_inv_run chs : forall sys sys',
  sys_inv sys -> sys_run sys chs = Some sys' -> sys_inv sys'.
Proof.
  induction chs as [|ch chs IH]; simpl; intros sys sys' Hinv H.
  - now injection H as <-.
  - destruct (sys_step sys ch) as [sys1|] eqn:Hs; [|discriminate].
    exact (IH _ _ (sys_inv_step _ _ _ Hinv Hs) H).
Qed.

(** Creating a request whose quorum exceeds the distinct replicas of its
    placement starts the tracking. *)
Lemma tracks_created sys coord msg now sys' self op key q replicas :
  sys_inv sys ->
  sys_nodes sys !! coord = Some self ->
  client_operation msg = Some (op, key, q) ->
  get_key_replicas key (_node_count self) = Some replicas ->
  sys_step sys (Client coord msg now) = Some sys' ->
  tracks coord (_request_counter self) replicas q sys'.
Proof.
  intros (Hnodes & Hreq & Hresp) Hn Hop Hrep Hstep.
  destruct (Hnodes _ _ Hn) as [Hid Hwf].
  simpl in Hstep. rewrite Hn in Hstep.
  destruct (on_local_message self msg now) as [[self' out]|] eqn:Hh;
    [|discriminate].
  injection Hstep as <-.
  pose proof Hh as Hh'. rewrite on_local_message_client in Hh'.
  unfold handle_client in Hh'. rewrite Hop, Hrep in Hh'.
  injection Hh' as Hself' Hout.
  split_and!; simpl.
  - exists self'. rewrite lookup_insert_eq. split; [reflexivity|].
    exists (new_pending msg replicas now). rewrite <- Hself'; simpl.
    split_and!.
    + apply lookup_insert_eq.
    + destruct msg; simpl in Hop; try discriminate; reflexivity.
    + destruct msg; simpl in Hop; try discriminate; injection Hop as _ _ <-;
        reflexivity.
    + unfold answered. rewrite new_pending_responses. set_solver.
  - intros p Hin Hsub. apply elem_of_app in Hin as [Hin|Hin].
    + destruct (Hreq _ _ _ Hin Hsub) as (sx & Hx & Hr).
      assert (sx = self) as -> by congruence. lia.
    + apply elem_of_packets in Hin as (m & d & Hin & ->). simpl.
      destruct (client_sends _ _ _ _ _ _ _ Hh Hin)
        as (_ & _ & _ & op' & key' & q' & reps' & Hop' & Hrep' & Hd).
      congruence.
  - intros p op' replica c Hin Hdst Hr. apply elem_of_app in Hin as [Hin|Hin].
    + destruct (Hresp _ _ _ _ _ Hin Hr) as (sx & Hx & Hlt).
      rewrite Hdst in Hx. assert (sx = self) as -> by congruence. lia.
    + apply elem_of_packets in Hin as (m & d & Hin & ->). simpl in Hr.
      destruct (client_sends _ _ _ _ _ _ _ Hh Hin) as (_ & Hnone & _).
      congruence.
Qed.

Lemma tracks_step sys ch sys' coord request_id replicas quorum :
  sys_inv sys ->
  Z.of_nat (size (list_to_set (C := gset string) replicas)) < quorum ->
  tracks coord request_id replicas quorum sys ->
  sys_step sys ch = Some sys' ->
  tracks coord request_id replicas quorum sys'.
Proof.
  intros (Hnodes & Hreq & Hresp) Hlt ((sc & Hc & Hst) & Hsubs & Hans) Hstep.
  destruct (sys_step_inv _ _ _ Hstep)
    as (n & self & ev & self' & out & Hn & Hh & -> & Hev).
  destruct (Hnodes _ _ Hn) as [Hid Hwf].
  split_and!; simpl.
  - destruct (decide (n = coord)) as [->|Hne].
    + exists self'. rewrite lookup_insert_eq. split; [reflexivity|].
      assert (sc = self) as -> by congruence.
      refine (proj1 (stranded_handle _ _ _ _ _ _ _ Hwf Hst Hlt _ Hh)).
      destruct ev as [msg now|msg sender]; simpl; [exact I|].
      destruct Hev as (p & Hp & Hdst & Hpay).
      intros op replica c Hr. rewrite <- Hpay in Hr.
      exact (Hans _ _ _ _ Hp Hdst Hr).
    + exists sc. now rewrite lookup_insert_ne.
  - intros p Hin Hsub. apply elem_of_app in Hin as [Hin|Hin];
      [exact (Hsubs _ Hin Hsub)|].
    apply elem_of_packets in Hin as (m & d & Hin & ->). simpl in Hsub |- *.
    destruct ev as [msg now|msg sender]; simpl in Hh.
    + destruct (client_sends _ _ _ _ _ _ _ Hh Hin) as (Hs & _).
      rewrite Hs, Hid in Hsub. injection Hsub as -> <-.
      assert (sc = self) as -> by congruence.
      destruct Hst as (p & Hp & _). destruct (proj2 Hwf _ _ Hp). lia.
    + destruct (peer_sends _ _ _ _ _ _ _ Hh Hin) as [Hs _]. congruence.
  - intros p op replica c Hin Hdst Hr. apply elem_of_app in Hin as [Hin|Hin];
      [exact (Hans _ _ _ _ Hin Hdst Hr)|].
    apply elem_of_packets in Hin as (m & d & Hin & ->).
    simpl in Hr, Hdst. subst d.
    destruct ev as [msg now|msg sender]; simpl in Hh.
    + destruct (client_sends _ _ _ _ _ _ _ Hh Hin) as (_ & Hnone & _).
      congruence.
    + destruct (peer_sends _ _ _ _ _ _ _ Hh Hin) as [_ Hs].
      destruct (Hs _ _ _ _ Hr) as [-> Hsub].
      destruct Hev as (p & Hp & Hdst & Hpay). rewrite <- Hpay in Hsub.
      rewrite Hid, <- Hdst. exact (Hsubs _ Hp Hsub).
Qed.

Lemma tracks_run chs : forall sys sys' coord request_id replicas quorum,
  sys_inv sys ->
  Z.of_nat (size (list_to_set (C := gset string) replicas)) < quorum ->
  tracks coord request_id replicas quorum sys ->
  sys_run sys chs = Some sys' ->
  sys_inv sys' /\ tracks coord request_id replicas quorum sys'.
Proof.
  induction chs as [|ch chs IH]; simpl;
    intros sys sys' coord rid reps q Hinv Hlt Htr H.
  - injection H as <-. now split.
  - destruct (sys_step sys ch) as [sys1|] eqn:Hs; [|discriminate].
    exact (IH _ _ _ _ _ _ (sys_inv_step _ _ _ Hinv Hs) Hlt
             (tracks_step _ _ _ _ _ _ _ Hinv Hlt Htr Hs) H).
Qed.

(** In a system of nodes that run this code, a request whose quorum exceeds
    the number of distinct replicas of its placement stays pending whatever
    the clients and the transport do, and the delivery of a response that
    names it never makes its coordinator send anything. *)
Lemma excessive_quorum_request_stranded
    (names : list NodeId) (before after : list Choice) (sys sys2 : System)
    (coord : NodeId) (self : StorageNode) (msg : Message) (now : Timestamp)
    (op : Operation) (key : Key) (q : Z) (replicas : list NodeId) :
  sys_run (sys_init names) before = Some sys ->
  sys_nodes sys !! coord = Some self ->
  client_operation msg = Some (op, key, q) ->
  get_key_replicas key (_node_count self) = Some replicas ->
  Z.of_nat (size (list_to_set (C := gset string) replicas)) < q ->
  sys_run sys (Client coord msg now :: after) = Some sys2 ->
  exists self2,
    sys_nodes sys2 !! coord = Some self2
    /\ stranded (_request_counter self) replicas q self2
    /\ forall p op' replica c,
         p ∈ sys_sent sys2 ->
         dst p = coord ->
         response_of (payload p)
         = Some (op', _request_counter self, replica, c) ->
         exists self3,
           on_message self2 (payload p) (src p) = Some (self3, [])
           /\ stranded (_request_counter self) replicas q self3.
Proof.
  intros Hbefore Hn Hop Hrep Hlt Hrun.
  pose proof (sys_inv_run _ _ _ (sys_inv_init names) Hbefore) as Hinv.
  cbn [sys_run] in Hrun.
  destruct (sys_step sys (Client coord msg now)) as [sys1|] eqn:Hs;
    [|discriminate].
  pose proof (tracks_created _ _ _ _ _ _ _ _ _ _ Hinv Hn Hop Hrep Hs) as Htr.
  destruct (tracks_run after _ _ _ _ _ _ (sys_inv_step _ _ _ Hinv Hs) Hlt Htr
              Hrun) as [(Hnodes & _) ((self2 & Hc & Hst) & _ & Hans)].
  exists self2. split_and!; try done.
  intros p op' replica c Hp Hdst Hr.
  destruct (Hnodes _ _ Hc) as [_ Hwf].
  exact (stranded_response _ _ (src p) _ _ _ _ _ _ Hwf Hst Hlt Hr
           (Hans _ _ _ _ Hp Hdst Hr)).
Qed.

(** ** The quorum is not validated *)

(** C10. A local GET, PUT or DELETE stores the quorum of the client message
    as it is and only fans out the sub-requests.  With a quorum of at most 1
    (0 and negative values included) the record stays as created until the
    first accepted response, and that response completes the request with
    this one response recorded.  With a quorum above the number of distinct
    identifiers of the placement the request never completes: in a system of
    nodes that run this code, whatever the clients and the transport do, the
    record stays in the table and the delivery of a response that names it
    makes the coordinator send nothing, so no finalizer runs and the client
    gets no reply; on the node alone the same holds as long as the responses
    that name the request carry replica ids of its placement. *)
Theorem quorum_stored_without_validation
    (self : StorageNode) (msg : Message) (now : Timestamp) (op : Operation)
    (key : Key) (q : Z) (self1 : StorageNode) (out1 : list Action) :
  wf self ->
  client_operation msg = Some (op, key, q) ->
  on_local_message self msg now = Some (self1, out1) ->
  let request_id := _request_counter self in
  exists replicas pending,
    get_key_replicas key (_node_count self) = Some replicas
    /\ length replicas = 3%nat
    /\ _pending_requests self1 !! request_id = Some pending
    /\ PendingRequest.operation pending = op
    /\ PendingRequest.quorum pending = q
    /\ PendingRequest.replicas pending = replicas
    /\ PendingRequest.responses pending = []
    /\ out1 = map (fun replica =>
                     Send (sub_request msg request_id (_id self) now) replica)
                replicas
    /\ (q <= 1 ->
        (forall evs self2 out2,
           Forall (fun ev => ~ matching request_id pending ev) evs ->
           run self1 evs = Some (self2, out2) ->
           _pending_requests self2 !! request_id = Some pending)
        /\ (forall self2 msg' sender op' replica c,
              _pending_requests self2 !! request_id = Some pending ->
              response_of msg' = Some (op', request_id, replica, c) ->
              accepted op' pending = true ->
              on_message self2 msg' sender
              = Some (set_pending_requests
                        (delete request_id (_pending_requests self2)) self2,
                      finalizer_output op'
                        (PendingRequest.set_responses [(replica, c)]
                           pending))))
    /\ (Z.of_nat (size (list_to_set (C := gset string) replicas)) < q ->
        forall evs self2 out2,
          Forall (from_placement request_id replicas) evs ->
          run self1 evs = Some (self2, out2) ->
          stranded request_id replicas q self2
          /\ forall msg' sender op' replica c,
               response_of msg' = Some (op', request_id, replica, c) ->
               replica ∈ replicas ->
               exists self3,
                 on_message self2 msg' sender = Some (self3, [])
                 /\ stranded request_id replicas q self3)
    /\ (Z.of_nat (size (list_to_set (C := gset string) replicas)) < q ->
        forall names before after sys sys2 coord,
          sys_run (sys_init names) before = Some sys ->
          sys_nodes sys !! coord = Some self ->
          sys_run sys (Client coord msg now :: after) = Some sys2 ->
          exists self2,
            sys_nodes sys2 !! coord = Some self2
            /\ stranded request_id replicas q self2
            /\ forall p op' replica c,
                 p ∈ sys_sent sys2 ->
                 dst p = coord ->
                 response_of (payload p)
                 = Some (op', request_id, replica, c) ->
                 exists self3,
                   on_message self2 (payload p) (src p) = Some (self3, [])
                   /\ stranded request_id replicas q self3).
Proof.
  intros Hwf Hop Hloc request_id.
  assert (Hwf1 : wf self1)
    by exact (wf_handle self (Local msg now) _ _ Hwf Hloc).
  rewrite on_local_message_client in Hloc. unfold handle_client in Hloc.
  rewrite Hop in Hloc.
  destruct (get_key_replicas key (_node_count self)) as [replicas|] eqn:Hrep;
    [|discriminate].
  injection Hloc as <- <-.
  exists replicas, (new_pending msg replicas now).
  assert (Hl : _pending_requests
                 (set_pending_requests
                    (<[request_id := new_pending msg replicas now]>
                       (_pending_requests self))
                    (set_request_counter (request_id + 1) self))
               !! request_id = Some (new_pending msg replicas now))
    by (simpl; apply lookup_insert_eq).
  assert (Hfields : PendingRequest.operation (new_pending msg replicas now) = op
                    /\ PendingRequest.quorum (new_pending msg replicas now) = q
                    /\ PendingRequest.replicas (new_pending msg replicas now)
                       = replicas).
  { destruct msg; simpl in Hop; try discriminate; injection Hop as <- <- <-;
      split_and!; reflexivity. }
  destruct Hfields as (Hfo & Hfq & Hfr).
  split_and!; try done.
  - exact (get_key_replicas_length _ _ _ Hrep).
  - apply new_pending_responses.
  - intros Hq. split.
    + intros evs self2 out2 Hall Hrun.
      exact (pending_untouched_run evs _ _ _ _ _ Hwf1 Hl Hall Hrun).
    + intros self2 msg' sender op' replica c Hp Hr Ha.
      rewrite (accepted_response_completes _ _ sender _ _ _ _ _ Hp
                 ltac:(rewrite Hfq; exact Hq) Hr Ha).
      now rewrite new_pending_responses.
  - intros Hlt evs self2 out2 Hall Hrun.
    assert (Hst : stranded request_id replicas q
                    (set_pending_requests
                       (<[request_id := new_pending msg replicas now]>
                          (_pending_requests self))
                       (set_request_counter (request_id + 1) self))).
    { exists (new_pending msg replicas now). split_and!; try done.
      unfold answered. rewrite new_pending_responses. set_solver. }
    destruct (stranded_run evs _ _ _ _ _ _ Hwf1 Hst Hlt Hall Hrun)
      as [Hwf2 Hst2].
    split; [exact Hst2|].
    intros msg' sender op' replica c Hr Hin.
    exact (stranded_response _ _ sender _ _ _ _ _ _ Hwf2 Hst2 Hlt Hr Hin).
  - intros Hlt names before after sys sys2 coord Hbefore Hn Hrun.
    exact (excessive_quorum_request_stranded names before after sys sys2
             coord self msg now op key q replicas Hbefore Hn Hop Hrep Hlt
             Hrun).
Qed.

Lemma example_quorum_0_reached :
  on_local_message (init "0" ["0"; "1"; "2"]) (GET "x" 0) 7
  = Some (example_quorum_0,
          [ Send (REPLICA_GET_REQ "x" 0 "0") "0";
            Send (REPLICA_GET_REQ "x" 0 "0") "1";
            Send (REPLICA_GET_REQ "x" 0 "0") "2" ]).
Proof. vm_compute. reflexivity. Qed.

Lemma example_quorum_4_reached :
  on_local_message (init "0" ["0"; "1"; "2"]) (GET "x" 4) 7
  = Some (example_quorum_4,
          [ Send (REPLICA_GET_REQ "x" 0 "0") "0";
            Send (REPLICA_GET_REQ "x" 0 "0") "1";
            Send (REPLICA_GET_REQ "x" 0 "0") "2" ]).
Proof. vm_compute. reflexivity. Qed.

(** Quorum 0: the first response completes the request.  Quorum 4: after
    the three replicas have answered the request is still pending, on the
    node and in the system of the three nodes. *)
Lemma quorum_stored_without_validation_witness :
  on_message example_quorum_0 (REPLICA_GET_RESP "x" (Some "v") 1 0 "2") "2"
  = Some (set_pending_requests ∅ example_quorum_0,
          [SendLocal (GET_RESP "x" (Some "v"))])
  /\ (forall self2 out2,
        run example_quorum_4
          [ Peer (REPLICA_GET_RESP "x" (Some "v") 1 0 "0") "0";
            Peer (REPLICA_GET_RESP "x" (Some "v") 1 0 "1") "1";
            Peer (REPLICA_GET_RESP "x" (Some "v") 1 0 "2") "2" ]
        = Some (self2, out2) ->
        stranded 0 ["0"; "1"; "2"] 4 self2)
  /\ (forall sys2,
        sys_run (sys_init ["0"; "1"; "2"])
          [ Client "0" (GET "x" 4) 7;
            Deliver 0; Deliver 1; Deliver 2; Deliver 3; Deliver 4; Deliver 5 ]
        = Some sys2 ->
        exists self2,
          sys_nodes sys2 !! "0" = Some self2
          /\ stranded 0 ["0"; "1"; "2"] 4 self2).
Proof.
  split_and!.
  - destruct (quorum_stored_without_validation (init "0" ["0"; "1"; "2"])
                (GET "x" 0) 7 OpGET "x" 0 example_quorum_0 _
                (wf_init _ _) eq_refl example_quorum_0_reached)
      as (replicas & pending & Hrep & _ & Hp & _ & _ & _ & _ & _ & Hlow & _).
    destruct (Hlow ltac:(lia)) as [_ Hfin].
    rewrite (Hfin example_quorum_0
               (REPLICA_GET_RESP "x" (Some "v") 1 0 "2") "2" OpGET "2"
               (Some "v", 1) Hp eq_refl eq_refl).
    vm_compute in Hp. injection Hp as <-.
    vm_compute. reflexivity.
  - intros self2 out2 Hrun.
    destruct (quorum_stored_without_validation (init "0" ["0"; "1"; "2"])
                (GET "x" 4) 7 OpGET "x" 4 example_quorum_4 _
                (wf_init _ _) eq_refl example_quorum_4_reached)
      as (replicas & pending & Hrep & _ & _ & _ & _ & _ & _ & _ & _ & Hhigh
          & _).
    vm_compute in Hrep. injection Hrep as <-.
    assert (Hlt : Z.of_nat (size (list_to_set (C := gset string)
                                    ["0"; "1"; "2"])) < 4)
      by (vm_compute; reflexivity).
    refine (proj1 (Hhigh Hlt
                     [ Peer (REPLICA_GET_RESP "x" (Some "v") 1 0 "0") "0";
                       Peer (REPLICA_GET_RESP "x" (Some "v") 1 0 "1") "1";
                       Peer (REPLICA_GET_RESP "x" (Some "v") 1 0 "2") "2" ]
                     self2 out2 _ Hrun)).
    repeat apply Forall_cons_2; try apply Forall_nil_2;
      simpl; intros op replica c H; simplify_eq; set_solver.
  - intros sys2 Hrun.
    destruct (quorum_stored_without_validation (init "0" ["0"; "1"; "2"])
                (GET "x" 4) 7 OpGET "x" 4 example_quorum_4 _
                (wf_init _ _) eq_refl example_quorum_4_reached)
      as (replicas & pending & Hrep & _ & _ & _ & _ & _ & _ & _ & _ & _
          & Hsys).
    vm_compute in Hrep. injection Hrep as <-.
    assert (Hlt : Z.of_nat (size (list_to_set (C := gset string)
                                    ["0"; "1"; "2"])) < 4)
      by (vm_compute; reflexivity).
    destruct (Hsys Hlt ["0"; "1"; "2"] []
                [Deliver 0; Deliver 1; Deliver 2; Deliver 3; Deliver 4;
                 Deliver 5]
                (sys_init ["0"; "1"; "2"]) sys2 "0" eq_refl eq_refl Hrun)
      as (self2 & H1 & H2 & _).
    exists self2. split; assumption.
Defined.

(** ** Scenarios of section 8, on three nodes "0", "1", "2" *)

(** S1: a PUT with quorum 2 acknowledged by all replicas, then a GET with
    quorum 2. *)
Example scenario_write_then_read :
  sys_replies <$>
    sys_run (sys_init ["0"; "1"; "2"])
      [ Client "0" (PUT "x" "v1" 2) 1;
        Deliver 0; Deliver 1; Deliver 2; Deliver 3; Deliver 4; Deliver 5;
        Client "0" (GET "x" 2) 2;
        Deliver 6; Deliver 7; Deliver 9; Deliver 10 ]
  = Some [ ("0", PUT_RESP "x" (Some "v1")); ("0", GET_RESP "x" (Some "v1")) ].
Proof. vm_compute. reflexivity. Qed.

(** S4: after that PUT, a DELETE with quorum 2 at time 9 answers the value
    that was deleted, and the replicas hold the tombstone stamped 9. *)
Example scenario_delete_returns_prior_value :
  (fun sys => (sys_replies sys,
               (fun n => _data n !! "x") <$> sys_nodes sys !! "1")) <$>
    sys_run (sys_init ["0"; "1"; "2"])
      [ Client "0" (PUT "x" "v1" 2) 1;
        Deliver 0; Deliver 1; Deliver 2; Deliver 3; Deliver 4; Deliver 5;
        Client "0" (DELETE "x" 2) 9;
        Deliver 6; Deliver 7; Deliver 8; Deliver 9; Deliver 10 ]
  = Some ([ ("0", PUT_RESP "x" (Some "v1"));
            ("0", DELETE_RESP "x" (Some "v1")) ],
          Some (Some (None, 9))).
Proof. vm_compute. reflexivity. Qed.

(** * Further properties of the code *)

(** ** Placement: range, wrap-around and distinct replicas *)

Lemma to_int_not_nil z : Z.to_int z <> Decimal.Pos Decimal.Nil
                         /\ Z.to_int z <> Decimal.Neg Decimal.Nil.
Proof.
  destruct z; simpl; split; try discriminate;
    intros [= H]; exact (DecimalPos.Unsigned.to_uint_nonnil _ H).
Qed.

(** [str] is one-to-one: two integers with the same decimal string are the
    same integer. *)
Lemma str_inj i j : str i = str j -> i = j.
Proof.
  unfold str. intros H.
  destruct (to_int_not_nil i) as [Hi1 Hi2].
  destruct (to_int_not_nil j) as [Hj1 Hj2].
  pose proof (NilZero.isi _ Hi1 Hi2) as Ei.
  pose proof (NilZero.isi _ Hj1 Hj2) as Ej.
  rewrite H in Ei. rewrite Ei in Ej. injection Ej as Ej.
  now apply DecimalZ.to_int_inj.
Qed.

Lemma str_ne i j : i <> j -> str i <> str j.
Proof. intros Hne H. apply Hne. now apply str_inj. Qed.

Lemma NoDup_three {A : Type} (x y z : A) :
  x <> y -> x <> z -> y <> z -> NoDup [x; y; z].
Proof.
  intros Hxy Hxz Hyz.
  apply NoDup_cons. split; [set_solver|].
  apply NoDup_cons. split; [set_solver|]. apply NoDup_singleton.
Qed.

Lemma get_next_replica_wraps i node_count :
  0 <= i < node_count ->
  get_next_replica i node_count
  = if i + 1 <? node_count then i + 1 else 0.
Proof.
  intros Hi. unfold get_next_replica.
  destruct (Z.ltb_spec (i + 1) node_count).
  - apply Z.mod_small. lia.
  - replace (i + 1) with node_count by lia. apply Z_mod_same_full.
Qed.

(** X1. With [N >= 1] nodes, the three replicas of a key are the decimal
    strings of three consecutive indices of [0, N), wrapping from [N - 1] to
    [0]; they name [min N 3] distinct nodes, so with three nodes or more a
    key is never placed twice on the same node. *)
Theorem placement_replicas_consecutive_and_distinct
    (key : Key) (node_count : Z) (replicas : list NodeId) :
  0 < node_count ->
  get_key_replicas key node_count = Some replicas ->
  (exists i,
     0 <= i < node_count
     /\ replicas
        = [ str i;
            str (get_next_replica i node_count);
            str (get_next_replica (get_next_replica i node_count)
                   node_count) ])
  /\ (forall r, r ∈ replicas -> exists i, 0 <= i < node_count /\ r = str i)
  /\ size (list_to_set (C := gset string) replicas)
     = Z.to_nat (Z.min node_count 3)
  /\ (3 <= node_count -> NoDup replicas).
Proof.
  intros Hn Hrep. unfold get_key_replicas in Hrep.
  destruct (Z.eqb_spec node_count 0) as [?|_]; [lia|].
  unfold Nat.iter in Hrep. cbn [nat_rect replicas_step fst app] in Hrep.
  injection Hrep as <-.
  set (a := key_hash key mod node_count).
  assert (Ha : 0 <= a < node_count) by (apply Z.mod_pos_bound; lia).
  set (b := get_next_replica a node_count).
  assert (Hb : b = if a + 1 <? node_count then a + 1 else 0)
    by now apply get_next_replica_wraps.
  assert (Hb' : 0 <= b < node_count)
    by (rewrite Hb; destruct (Z.ltb_spec (a + 1) node_count); lia).
  set (c := get_next_replica b node_count).
  assert (Hc : c = if b + 1 <? node_count then b + 1 else 0)
    by now apply get_next_replica_wraps.
  assert (Hc' : 0 <= c < node_count)
    by (rewrite Hc; destruct (Z.ltb_spec (b + 1) node_count); lia).
  split_and!.
  - exists a. split; [exact Ha | reflexivity].
  - intros r Hr. rewrite !elem_of_cons in Hr.
    destruct Hr as [->|[->|[->|Hr]]]; eauto.
    now apply elem_of_nil in Hr.
  - destruct (Z.ltb_spec (a + 1) node_count) as [H1|H1];
      destruct (Z.ltb_spec (b + 1) node_count) as [H2|H2].
    + (* three distinct indices *)
      assert (Hd : NoDup [str a; str b; str c])
        by (apply NoDup_three; apply str_ne; lia).
      rewrite size_list_to_set by exact Hd. simpl. lia.
    + (* N = a + 2: a, a + 1, 0 *)
      destruct (decide (a = 0)) as [Ha0|Ha0].
      * assert (str c = str a) as -> by (f_equal; lia).
        assert (Hs : list_to_set (C := gset string) [str a; str b; str a]
                     = {[str a]} ∪ {[str b]}) by set_solver.
        rewrite Hs, size_union, !size_singleton.
        -- lia.
        -- apply disjoint_singleton_l. rewrite elem_of_singleton.
           intros H. apply str_inj in H. lia.
      * assert (Hd : NoDup [str a; str b; str c])
          by (apply NoDup_three; apply str_ne; lia).
        rewrite size_list_to_set by exact Hd. simpl. lia.
    + (* N = a + 1: a, 0, 1 or a, 0, 0 *)
      destruct (decide (a = 0)) as [Ha0|Ha0]; [lia|].
      destruct (decide (a = 1)) as [Ha1|Ha1].
      * assert (str c = str a) as -> by (f_equal; lia).
        assert (Hs : list_to_set (C := gset string) [str a; str b; str a]
                     = {[str a]} ∪ {[str b]}) by set_solver.
        rewrite Hs, size_union, !size_singleton.
        -- lia.
        -- apply disjoint_singleton_l. rewrite elem_of_singleton.
           intros H. apply str_inj in H. lia.
      * assert (Hd : NoDup [str a; str b; str c])
          by (apply NoDup_three; apply str_ne; lia).
        rewrite size_list_to_set by exact Hd. simpl. lia.
    + (* N = 1: 0, 0, 0 *)
      assert (str b = str a) as -> by (f_equal; lia).
      assert (str c = str a) as -> by (f_equal; lia).
      assert (Hs : list_to_set (C := gset string) [str a; str a; str a]
                   = {[str a]}) by set_solver.
      rewrite Hs, size_singleton. lia.
  - intros H3.
    destruct (Z.ltb_spec (a + 1) node_count);
      destruct (Z.ltb_spec (b + 1) node_count);
      apply NoDup_three; apply str_ne; lia.
Qed.

Lemma placement_replicas_consecutive_and_distinct_witness :
  NoDup ["8"; "9"; "10"]
  /\ size (list_to_set (C := gset string) ["1"; "0"; "1"]) = 2%nat.
Proof.
  split.
  - refine (proj2 (proj2 (proj2
      (placement_replicas_consecutive_and_distinct "a" 11 ["8"; "9"; "10"]
         _ _))) _); [lia | vm_compute; reflexivity | lia].
  - refine (proj1 (proj2 (proj2
      (placement_replicas_consecutive_and_distinct "x" 2 ["1"; "0"; "1"]
         _ _)))); [lia | vm_compute; reflexivity].
Defined.

(** ** When a handler raises *)

(** X2. A local handler raises exactly when the message is a GET, PUT or
    DELETE and the node count is 0, which for a constructed node means an
    empty node list; every other local message is handled. *)
Theorem local_request_raises_iff_no_nodes
    (self : StorageNode) (msg : Message) (now : Timestamp) :
  (on_local_message self msg now = None
   <-> is_Some (client_operation msg) /\ _node_count self = 0)
  /\ (forall node_id nodes,
        on_local_message (init node_id nodes) msg now = None
        <-> is_Some (client_operation msg) /\ nodes = []).
Proof.
  assert (H : forall s : StorageNode,
             on_local_message s msg now = None
             <-> is_Some (client_operation msg) /\ _node_count s = 0).
  { intros s. rewrite on_local_message_client. unfold handle_client.
    destruct (client_operation msg) as [[[op key] q]|].
    - unfold get_key_replicas.
      destruct (Z.eqb_spec (_node_count s) 0) as [E|E].
      + split; [intros _; split; [eauto | exact E] | reflexivity].
      + split; [discriminate | intros [_ ?]; contradiction].
    - split; [discriminate | intros [[? [=]] _]]. }
  split; [apply H|].
  intros node_id nodes. rewrite H. simpl. rewrite sorted_length.
  split; intros [Hc Hn]; (split; [exact Hc|]).
  - destruct nodes; [reflexivity | simpl in Hn; lia].
  - now subst.
Qed.

(** X3. A peer handler never raises: whatever the node holds and whatever
    message arrives, [on_message] returns; in particular a finalizer is only
    called on an id that is in the table. *)
Theorem peer_handlers_never_raise
    (self : StorageNode) (msg : Message) (sender : NodeId) :
  exists self' out, on_message self msg sender = Some (self', out).
Proof.
  destruct (on_message_cases self msg sender)
    as [(op & rid & replica & c & Hr)|[_ (s1 & o1 & Ho & _)]].
  - destruct (on_message_response_keeps_store self msg sender _ _ _ _ Hr)
      as (s1 & o1 & Ho & _). eauto.
  - eauto.
Qed.

(** ** The store of a replica *)

Lemma set_data_same self : set_data (_data self) self = self.
Proof. now destruct self. Qed.

Lemma read_repair_store_merge self key value timestamp :
  _handle_replica_read_repair self key value timestamp
  = Some (set_data (store_merge key (value, timestamp) (_data self)) self,
          []).
Proof.
  unfold _handle_replica_read_repair, store_merge.
  destruct (data_get (_data self) key) as [cv ct]; simpl.
  destruct (should_update value timestamp cv ct); [reflexivity|].
  now rewrite set_data_same.
Qed.

Lemma put_req_store_merge self key value request_id coordinator timestamp :
  let data' := store_merge key (value, timestamp) (_data self) in
  _handle_replica_put_req self key value request_id coordinator timestamp
  = Some (set_data data' self,
          [Send (REPLICA_PUT_RESP key (data_get data' key).1
                   (data_get data' key).2 request_id (_id self))
             coordinator]).
Proof.
  unfold _handle_replica_put_req, store_merge.
  destruct (data_get (_data self) key) as [cv ct] eqn:E; simpl.
  destruct (should_update value timestamp cv ct).
  - unfold data_get. now rewrite lookup_insert_eq.
  - rewrite set_data_same, E. reflexivity.
Qed.

Lemma store_merge_get key c data :
  data_get (store_merge key c data) key = merge c (data_get data key).
Proof.
  unfold store_merge, merge.
  destruct (should_update _ _ _ _); [|reflexivity].
  unfold data_get. now rewrite lookup_insert_eq.
Qed.

Lemma store_merge_other key other c data :
  other <> key -> store_merge key c data !! other = data !! other.
Proof.
  intros Hne. unfold store_merge.
  destruct (should_update _ _ _ _); [|reflexivity].
  apply lookup_insert_ne. congruence.
Qed.

(** X4. [REPLICA_PUT_REQ] and [REPLICA_READ_REPAIR] update the store in the
    same way; the cell of the key afterwards is at or above both the cell
    held before and the incoming cell, the other keys are untouched, and the
    PUT reply reports the cell that is now stored. *)
Theorem merging_handlers_only_raise_the_cell
    (self : StorageNode) (key : Key) (value : Value) (request_id : Z)
    (coordinator : NodeId) (timestamp : Timestamp) :
  exists self',
    _handle_replica_read_repair self key value timestamp = Some (self', [])
    /\ _handle_replica_put_req self key value request_id coordinator
         timestamp
       = Some (self',
               [Send (REPLICA_PUT_RESP key (data_get (_data self') key).1
                        (data_get (_data self') key).2 request_id
                        (_id self))
                  coordinator])
    /\ cell_le (data_get (_data self) key) (data_get (_data self') key)
       = true
    /\ cell_le (value, timestamp) (data_get (_data self') key) = true
    /\ (data_get (_data self') key = data_get (_data self) key
        \/ data_get (_data self') key = (value, timestamp))
    /\ forall other, other <> key -> _data self' !! other = _data self !! other.
Proof.
  exists (set_data (store_merge key (value, timestamp) (_data self)) self).
  split_and!.
  - apply read_repair_store_merge.
  - apply put_req_store_merge.
  - simpl. rewrite store_merge_get, merge_max. apply cell_le_not_lt.
    destruct (cell_lt (data_get (_data self) key) (value, timestamp)) eqn:E.
    + now apply cell_lt_asym.
    + apply cell_lt_irrefl.
  - simpl. rewrite store_merge_get, merge_max. apply cell_le_not_lt.
    destruct (cell_lt (data_get (_data self) key) (value, timestamp)) eqn:E.
    + apply cell_lt_irrefl.
    + exact E.
  - simpl. rewrite store_merge_get, merge_max.
    destruct (cell_lt _ _); [now right | now left].
  - intros other Hne. simpl. now apply store_merge_other.
Qed.

(** Two merges into the store commute. *)
Lemma store_merge_comm k1 c1 k2 c2 data :
  store_merge k1 c1 (store_merge k2 c2 data)
  = store_merge k2 c2 (store_merge k1 c1 data).
Proof.
  destruct (decide (k1 = k2)) as [->|Hne].
  - unfold store_merge at 1 3.
    destruct (data_get (store_merge k2 c2 data) k2) as [v21 t21] eqn:E2.
    destruct (data_get (store_merge k2 c1 data) k2) as [v12 t12] eqn:E1.
    simpl. rewrite !should_update_cell_lt.
    rewrite store_merge_get, merge_max in E1, E2.
    unfold store_merge.
    destruct (data_get data k2) as [v0 t0] eqn:E0. simpl.
    rewrite !should_update_cell_lt.
    destruct c1 as [v1 t1], c2 as [v2 t2]. simpl in *.
    destruct (cell_lt (v0, t0) (v2, t2)) eqn:A;
      destruct (cell_lt (v0, t0) (v1, t1)) eqn:B;
      injection E1 as <- <-; injection E2 as <- <-.
    + destruct (cell_lt (v2, t2) (v1, t1)) eqn:C.
      * rewrite (cell_lt_asym _ _ C). apply insert_insert_eq.
      * destruct (cell_lt (v1, t1) (v2, t2)) eqn:D.
        -- symmetry. apply insert_insert_eq.
        -- pose proof (cell_lt_total _ _ C D) as [= -> ->]. reflexivity.
    + assert (C : cell_lt (v2, t2) (v1, t1) = false).
      { destruct (cell_lt (v2, t2) (v1, t1)) eqn:C; [|reflexivity].
        pose proof (cell_lt_trans _ _ _ A C). congruence. }
      rewrite C, A. reflexivity.
    + assert (C : cell_lt (v1, t1) (v2, t2) = false).
      { destruct (cell_lt (v1, t1) (v2, t2)) eqn:C; [|reflexivity].
        pose proof (cell_lt_trans _ _ _ B C). congruence. }
      rewrite C, B. reflexivity.
    + rewrite A, B. reflexivity.
  - unfold store_merge at 1 3.
    assert (G1 : data_get (store_merge k2 c2 data) k1 = data_get data k1)
      by (unfold data_get; now rewrite store_merge_other).
    assert (G2 : data_get (store_merge k1 c1 data) k2 = data_get data k2)
      by (unfold data_get; rewrite store_merge_other; congruence).
    rewrite G1, G2. unfold store_merge.
    destruct (should_update c1.1 c1.2 _ _), (should_update c2.1 c2.2 _ _);
      try reflexivity.
    apply insert_insert_ne. congruence.
Qed.

Lemma handle_merge self ev key c :
  merge_of ev = Some (key, c) ->
  exists out,
    handle self ev
    = Some (set_data (store_merge key c (_data self)) self, out).
Proof.
  destruct ev as [msg now|msg sender]; simpl; [discriminate|].
  destruct msg; simpl; try discriminate; intros [= <- <-].
  - rewrite put_req_store_merge. eauto.
  - rewrite read_repair_store_merge. eauto.
Qed.

Lemma run_merges_total evs : forall self,
  Forall (fun ev => is_Some (merge_of ev)) evs ->
  exists self' out, run self evs = Some (self', out).
Proof.
  induction evs as [|ev evs IH]; intros self Hall; simpl; [eauto|].
  apply Forall_cons in Hall as [[[key c] Hev] Hall].
  destruct (handle_merge self ev key c Hev) as [o Ho]. rewrite Ho.
  destruct (IH (set_data (store_merge key c (_data self)) self) Hall)
    as (s' & o' & Hr).
  rewrite Hr. eauto.
Qed.

(** X5. A replica that handles the same [REPLICA_PUT_REQ] and
    [REPLICA_READ_REPAIR] messages in another order ends in the same state:
    the same store, and the rest of the node untouched. *)
Theorem merges_in_any_order_give_the_same_node
    (evs1 evs2 : list Event) (self : StorageNode) :
  Forall (fun ev => is_Some (merge_of ev)) evs1 ->
  evs1 ≡ₚ evs2 ->
  exists self' out1 out2,
    run self evs1 = Some (self', out1)
    /\ run self evs2 = Some (self', out2)
    /\ _pending_requests self' = _pending_requests self
    /\ _request_counter self' = _request_counter self.
Proof.
  intros Hall Hperm.
  assert (Hframe : forall evs s s' o,
            Forall (fun ev => is_Some (merge_of ev)) evs ->
            run s evs = Some (s', o) ->
            _pending_requests s' = _pending_requests s
            /\ _request_counter s' = _request_counter s).
  { induction evs as [|ev evs IH]; simpl; intros s s' o Ha H.
    - injection H as <- <-. now split.
    - apply Forall_cons in Ha as [[[key c] Hev] Ha].
      destruct (handle_merge s ev key c Hev) as [o1 Ho]. rewrite Ho in H.
      destruct (run _ evs) as [[s2 o2]|] eqn:Hr; [|discriminate].
      injection H as <- <-. exact (IH _ _ _ Ha Hr). }
  assert (Hsame : exists self' out1 out2,
            run self evs1 = Some (self', out1)
            /\ run self evs2 = Some (self', out2)).
  { clear Hframe. revert self Hall.
    induction Hperm as [|x l l' Hp IH|x y l|l l' l'' Hp1 IH1 Hp2 IH2];
      intros self Hall.
    - exists self, [], []. split; reflexivity.
    - apply Forall_cons in Hall as [[[key c] Hev] Hall]. simpl.
      destruct (handle_merge self x key c Hev) as [o Ho]. rewrite Ho.
      destruct (IH (set_data (store_merge key c (_data self)) self) Hall)
        as (s' & o1 & o2 & H1 & H2).
      rewrite H1, H2. eauto.
    - apply Forall_cons in Hall as [[[ky cy] Hy] Hall].
      apply Forall_cons in Hall as [[[kx cx] Hx] Hall]. simpl.
      destruct (handle_merge self y ky cy Hy) as [oy Hoy]. rewrite Hoy.
      destruct (handle_merge self x kx cx Hx) as [ox Hox]. rewrite Hox.
      destruct (handle_merge
                  (set_data (store_merge ky cy (_data self)) self) x kx cx Hx)
        as [ox' Hox']. rewrite Hox'.
      destruct (handle_merge
                  (set_data (store_merge kx cx (_data self)) self) y ky cy Hy)
        as [oy' Hoy']. rewrite Hoy'.
      unfold set_data; simpl. rewrite (store_merge_comm kx cx ky cy).
      destruct (run_merges_total l
                  (mkNode (_id self) (_nodes self) (_node_count self)
                     (store_merge ky cy (store_merge kx cx (_data self)))
                     (_pending_requests self) (_request_counter self)) Hall)
        as (s' & o' & Hr).
      rewrite Hr. eauto.
    - destruct (IH1 self Hall) as (s1 & o1 & o2 & H1 & H2).
      assert (Hall' : Forall (fun ev => is_Some (merge_of ev)) l')
        by (now rewrite <- Hp1).
      destruct (IH2 self Hall') as (s2 & o2' & o3 & H2' & H3).
      rewrite H2 in H2'. injection H2' as <- <-. eauto. }
  destruct Hsame as (s' & o1 & o2 & H1 & H2).
  exists s', o1, o2. split; [exact H1|]. split; [exact H2|].
  exact (Hframe _ _ _ _ Hall H1).
Qed.

Lemma merges_in_any_order_give_the_same_node_witness :
  exists self' out1 out2,
    run (init "1" ["0"; "1"; "2"])
      [ Peer (REPLICA_PUT_REQ "x" (Some "apple") 0 "0" 5) "0";
        Peer (REPLICA_PUT_REQ "x" (Some "banana") 0 "2" 5) "2";
        Peer (REPLICA_READ_REPAIR "x" None 5) "0" ]
    = Some (self', out1)
    /\ run (init "1" ["0"; "1"; "2"])
         [ Peer (REPLICA_READ_REPAIR "x" None 5) "0";
           Peer (REPLICA_PUT_REQ "x" (Some "banana") 0 "2" 5) "2";
           Peer (REPLICA_PUT_REQ "x" (Some "apple") 0 "0" 5) "0" ]
       = Some (self', out2)
    /\ data_get (_data self') "x" = (Some "banana", 5).
Proof.
  destruct (merges_in_any_order_give_the_same_node
              [ Peer (REPLICA_PUT_REQ "x" (Some "apple") 0 "0" 5) "0";
                Peer (REPLICA_PUT_REQ "x" (Some "banana") 0 "2" 5) "2";
                Peer (REPLICA_READ_REPAIR "x" None 5) "0" ]
              [ Peer (REPLICA_READ_REPAIR "x" None 5) "0";
                Peer (REPLICA_PUT_REQ "x" (Some "banana") 0 "2" 5) "2";
                Peer (REPLICA_PUT_REQ "x" (Some "apple") 0 "0" 5) "0" ]
              (init "1" ["0"; "1"; "2"]))
    as (s' & o1 & o2 & H1 & H2 & _).
  - repeat apply Forall_cons_2; try apply Forall_nil_2; simpl; eauto.
  - apply Permutation_sym, (Permutation_rev [_; _; _]).
  - exists s', o1, o2. split; [exact H1|]. split; [exact H2|].
    vm_compute in H1. injection H1 as <- _. vm_compute. reflexivity.
Defined.

(** X6. A replica that has handled [REPLICA_PUT_REQ] answers a following
    [REPLICA_GET_REQ] for the key with the very cell its PUT reply reported,
    and that cell is at or above the cell of the PUT. *)
Theorem get_after_put_reads_the_reported_cell
    (self : StorageNode) (key : Key) (value : Value)
    (request_id request_id' : Z) (coordinator coordinator' : NodeId)
    (timestamp : Timestamp) :
  exists self' v t,
    _handle_replica_put_req self key value request_id coordinator timestamp
    = Some (self',
            [Send (REPLICA_PUT_RESP key v t request_id (_id self))
               coordinator])
    /\ _handle_replica_get_req self' key request_id' coordinator'
       = Some (self',
               [Send (REPLICA_GET_RESP key v t request_id' (_id self))
                  coordinator'])
    /\ cell_le (value, timestamp) (v, t) = true.
Proof.
  pose proof (put_req_store_merge self key value request_id coordinator
                timestamp) as H. cbv zeta in H.
  set (data' := store_merge key (value, timestamp) (_data self)) in *.
  exists (set_data data' self), (data_get data' key).1, (data_get data' key).2.
  split; [exact H|]. split.
  - exact (get_req_pure (set_data data' self) key request_id' coordinator').
  - rewrite <- surjective_pairing. subst data'.
    rewrite store_merge_get, merge_max. apply cell_le_not_lt.
    destruct (cell_lt (data_get (_data self) key) (value, timestamp)) eqn:E.
    + apply cell_lt_irrefl.
    + exact E.
Qed.

(** X7. A PUT and a DELETE of the same key with the same timestamp do not
    commute at a replica: handled PUT first the replica ends with the
    tombstone, handled DELETE first it ends with the value of the PUT. *)
Theorem put_and_delete_at_one_timestamp_depend_on_order
    (self : StorageNode) (key : Key) (value : string)
    (r1 r2 : Z) (c1 c2 : NodeId) (timestamp : Timestamp) :
  exists s1 o1 s2 o2,
    run self [ Peer (REPLICA_PUT_REQ key (Some value) r1 c1 timestamp) c1;
               Peer (REPLICA_DELETE_REQ key r2 c2 timestamp) c2 ]
    = Some (s1, o1)
    /\ run self [ Peer (REPLICA_DELETE_REQ key r2 c2 timestamp) c2;
                  Peer (REPLICA_PUT_REQ key (Some value) r1 c1 timestamp) c1 ]
       = Some (s2, o2)
    /\ data_get (_data s1) key = (None, timestamp)
    /\ data_get (_data s2) key = (Some value, timestamp).
Proof.
  simpl.
  rewrite (put_req_store_merge self key (Some value) r1 c1 timestamp).
  cbv zeta.
  unfold _handle_replica_delete_req at 1.
  destruct (data_get (_data (set_data _ self)) key) as [v1 t1].
  unfold _handle_replica_delete_req.
  destruct (data_get (_data self) key) as [v0 t0].
  rewrite put_req_store_merge. cbv zeta.
  eexists _, _, _, _. split; [reflexivity|]. split; [reflexivity|].
  split.
  - unfold data_get; simpl. now rewrite lookup_insert_eq.
  - simpl. rewrite store_merge_get, merge_max.
    unfold data_get at 1. rewrite lookup_insert_eq. simpl.
    unfold cell_lt; simpl. rewrite Z.ltb_irrefl, Z.eqb_refl. reflexivity.
Qed.

(** ** What the finalizers compute and send *)

Lemma best_step_cases (b : option string * Z) (r : string * (option string * Z)) :
  (best_step b r = b \/ best_step b r = r.2)
  /\ b.2 <= (best_step b r).2
  /\ r.2.2 <= (best_step b r).2.
Proof.
  destruct b as [bv bt], r as [k [v t]]. unfold best_step; simpl.
  destruct (Z.gtb_spec t bt) as [G|G]; simpl.
  - split; [now right | lia].
  - destruct (Z.eqb_spec t bt) as [->|N].
    + destruct v as [v|], bv as [bv|]; simpl;
        try destruct (str_gt v bv); simpl; (split; [tauto | lia]).
    + simpl. split; [now left | lia].
Qed.

Lemma best_fold_bounds rs : forall b : option string * Z,
  b.2 <= (fold_left best_step rs b).2
  /\ (forall r, r ∈ rs -> r.2.2 <= (fold_left best_step rs b).2)
  /\ (fold_left best_step rs b = b
      \/ exists r, r ∈ rs /\ r.2 = fold_left best_step rs b).
Proof.
  induction rs as [|r rs IH]; intros b; simpl.
  - split; [lia|]. split; [|now left].
    intros r Hr. now apply elem_of_nil in Hr.
  - destruct (IH (best_step b r)) as (H1 & H2 & H3).
    destruct (best_step_cases b r) as (Hc & Hb & Hr).
    split; [lia|]. split.
    + intros r' Hin. apply elem_of_cons in Hin as [->|Hin]; [lia|].
      now apply H2.
    + destruct H3 as [H3|(r' & Hin & H3)].
      * destruct Hc as [Hc|Hc].
        -- left. congruence.
        -- right. exists r. split; [apply list_elem_of_here | congruence].
      * right. exists r'. split; [now apply list_elem_of_further | exact H3].
Qed.

Lemma best_fold_unwritten rs : forall t0 : Z,
  (forall r : string * (option string * Z), r ∈ rs -> r.2.2 <= t0) ->
  fold_left best_step rs (None, t0) = (None, t0).
Proof.
  induction rs as [|[k [v t]] rs IH]; intros t0 Hall; simpl; [reflexivity|].
  assert (Ht : t <= t0) by exact (Hall (k, (v, t)) (list_elem_of_here _ _)).
  destruct (Z.gtb_spec t t0); [lia|].
  destruct (t =? t0), v; apply IH; intros r Hr; apply Hall;
    now apply list_elem_of_further.
Qed.

Lemma best_cell_is_recorded
    (rs : list (string * (option string * Z))) :
  best_cell rs = (None, -1) \/ exists r, r ∈ rs /\ r.2 = best_cell rs.
Proof.
  unfold best_cell.
  exact (proj2 (proj2 (best_fold_bounds rs (None, -1)))).
Qed.

(** X8. The cell a finalizer computes carries the highest timestamp among
    the recorded responses (and at least the sentinel); it is the cell of a
    recorded response or the initial tombstone [(None, -1)]; and when no
    response has a timestamp above the sentinel the client is answered the
    tombstone. *)
Theorem winner_carries_the_highest_timestamp
    (responses : list (NodeId * Cell)) :
  -1 <= (best_cell responses).2
  /\ (forall r, r ∈ responses -> r.2.2 <= (best_cell responses).2)
  /\ (best_cell responses = (None, -1)
      \/ exists r, r ∈ responses /\ r.2 = best_cell responses)
  /\ ((forall r, r ∈ responses -> r.2.2 <= -1) ->
      best_cell responses = (None, -1)).
Proof.
  unfold best_cell.
  destruct (best_fold_bounds responses (None, -1)) as (H1 & H2 & H3).
  split_and!; try assumption.
  apply best_fold_unwritten.
Qed.

Lemma cell_le_refl a : cell_le a a = true.
Proof. apply cell_le_not_lt, cell_lt_irrefl. Qed.

Lemma cell_le_trans a b c :
  cell_le a b = true -> cell_le b c = true -> cell_le a c = true.
Proof.
  rewrite !cell_le_not_lt. intros H1 H2.
  exact (cell_lt_neg_trans _ _ _ H2 H1).
Qed.

Lemma cell_le_antisym a b :
  cell_le a b = true -> cell_le b a = true -> a = b.
Proof.
  rewrite !cell_le_not_lt. intros H1 H2. now apply cell_lt_total.
Qed.

Lemma cell_lt_le a b : cell_lt a b = true -> cell_le a b = true.
Proof. intros H. unfold cell_le. now rewrite H. Qed.

(** One iteration keeps the best cell an upper bound, when the best cell and
    the response are among responses without mixed ties. *)
Lemma best_step_upper all (b : option string * Z)
    (r : string * (option string * Z)) :
  no_mixed_ties all ->
  (b = (None, -1) \/ exists r', r' ∈ all /\ r'.2 = b) ->
  r ∈ all ->
  cell_le b (best_step b r) = true /\ cell_le r.2 (best_step b r) = true.
Proof.
  intros [Hties Hwritten] Hb Hr.
  destruct b as [bv bt], r as [k [v t]]. unfold best_step; simpl.
  destruct (Z.gtb_spec t bt) as [G|G]; simpl.
  - split; [|apply cell_le_refl].
    apply cell_lt_le. unfold cell_lt; simpl.
    destruct (Z.ltb_spec bt t); [reflexivity | lia].
  - destruct (Z.eqb_spec t bt) as [->|N].
    + destruct v as [v|], bv as [bv|]; simpl.
      * destruct (str_gt v bv) eqn:E; simpl.
        -- split; [|apply cell_le_refl].
           apply cell_lt_le. unfold cell_lt; simpl.
           now rewrite Z.ltb_irrefl, Z.eqb_refl, E.
        -- split; [apply cell_le_refl|].
           apply cell_le_not_lt. unfold cell_lt; simpl.
           now rewrite Z.ltb_irrefl, Z.eqb_refl, E.
      * exfalso. destruct Hb as [[= ->]|(r' & Hr' & Hb')].
        -- specialize (Hwritten _ Hr). simpl in Hwritten.
           assert (-1 < -1) by (apply Hwritten; discriminate). lia.
        -- destruct r' as [k' [v' t']]. simpl in Hb'.
           injection Hb' as -> ->.
           specialize (Hties _ _ Hr' Hr eq_refl eq_refl). discriminate.
      * split; [apply cell_le_refl|].
        apply cell_le_not_lt. unfold cell_lt; simpl.
        now rewrite Z.ltb_irrefl, Z.eqb_refl.
      * split; apply cell_le_refl.
    + split; [apply cell_le_refl|].
      apply cell_le_not_lt. unfold cell_lt; simpl.
      destruct (Z.ltb_spec bt t); [lia|].
      destruct (Z.eqb_spec bt t); [congruence | reflexivity].
Qed.

Lemma best_fold_upper all rs : forall b : option string * Z,
  no_mixed_ties all ->
  (b = (None, -1) \/ exists r', r' ∈ all /\ r'.2 = b) ->
  (forall r, r ∈ rs -> r ∈ all) ->
  cell_le b (fold_left best_step rs b) = true
  /\ forall r, r ∈ rs -> cell_le r.2 (fold_left best_step rs b) = true.
Proof.
  induction rs as [|r rs IH]; intros b Hall Hb Hsub; simpl.
  - split; [apply cell_le_refl|]. intros r Hr. now apply elem_of_nil in Hr.
  - assert (Hr : r ∈ all) by (apply Hsub, list_elem_of_here).
    destruct (best_step_upper all b r Hall Hb Hr) as [Hbb Hrb].
    assert (Hb' : best_step b r = (None, -1)
                  \/ exists r', r' ∈ all /\ r'.2 = best_step b r).
    { destruct (best_step_cases b r) as ([Hc|Hc] & _).
      - rewrite Hc. exact Hb.
      - right. exists r. split; [exact Hr | now symmetry]. }
    destruct (IH (best_step b r) Hall Hb')
      as [H1 H2]; [intros r' Hr'; apply Hsub; now apply list_elem_of_further|].
    split; [exact (cell_le_trans _ _ _ Hbb H1)|].
    intros r' Hin. apply elem_of_cons in Hin as [->|Hin].
    + exact (cell_le_trans _ _ _ Hrb H1).
    + now apply H2.
Qed.

Lemma no_mixed_ties_perm rs rs' :
  rs ≡ₚ rs' -> no_mixed_ties rs -> no_mixed_ties rs'.
Proof.
  intros Hp [H1 H2]. split.
  - intros r r' Hr Hr'. rewrite <- Hp in Hr, Hr'. now apply H1.
  - intros r Hr. rewrite <- Hp in Hr. now apply H2.
Qed.

(** X9. When no two recorded responses tie on the timestamp with a
    tombstone in one and a concrete value in the other (and concrete values
    carry a timestamp above the sentinel), the cell a finalizer computes is
    the maximum of the recorded cells in the order of section 4.2 (at or
    above every recorded cell, and itself a recorded cell or the initial
    tombstone), it does not depend on the order in which the responses were
    recorded, and the read repairs of a GET go to exactly the replicas whose
    recorded cell is strictly below it. *)
Theorem winner_is_the_maximum_without_mixed_ties
    (responses : list (NodeId * Cell)) :
  no_mixed_ties responses ->
  (forall r, r ∈ responses -> cell_le r.2 (best_cell responses) = true)
  /\ cell_le (None, -1) (best_cell responses) = true
  /\ (forall r,
        r ∈ responses ->
        needs_repair (best_cell responses) r.2
        = cell_lt r.2 (best_cell responses))
  /\ (forall responses',
        responses ≡ₚ responses' ->
        best_cell responses' = best_cell responses)
  /\ (best_cell responses = (None, -1)
      \/ exists r, r ∈ responses /\ r.2 = best_cell responses).
Proof.
  intros Hties.
  assert (Hmax : forall rs,
            no_mixed_ties rs ->
            cell_le (None, -1) (best_cell rs) = true
            /\ forall r, r ∈ rs -> cell_le r.2 (best_cell rs) = true).
  { intros rs Hrs. unfold best_cell.
    apply (best_fold_upper rs rs (None, -1) Hrs); [now left | auto]. }
  destruct (Hmax _ Hties) as [Hinit Hup].
  split_and!; try assumption.
  - intros r Hr. apply needs_repair_below, cell_le_not_lt. now apply Hup.
  - intros rs' Hp.
    destruct (Hmax rs' (no_mixed_ties_perm _ _ Hp Hties)) as [Hinit' Hup'].
    apply cell_le_antisym.
    + destruct (best_cell_is_recorded rs')
        as [->|(r & Hr & <-)]; [exact Hinit|].
      apply Hup. now rewrite Hp.
    + destruct (best_cell_is_recorded responses)
        as [->|(r & Hr & <-)]; [exact Hinit'|].
      apply Hup'. now rewrite <- Hp.
  - apply best_cell_is_recorded.
Qed.

Lemma winner_is_the_maximum_without_mixed_ties_witness :
  best_cell [ ("2", (None, -1)); ("0", (Some "apple", 5));
              ("1", (Some "banana", 5)) ]
  = best_cell [ ("1", (Some "banana", 5)); ("2", (None, -1));
                ("0", (Some "apple", 5)) ].
Proof.
  refine (proj1 (proj2 (proj2 (proj2
    (winner_is_the_maximum_without_mixed_ties
       [ ("1", (Some "banana", 5)); ("2", (None, -1));
         ("0", (Some "apple", 5)) ] _)))) _ _).
  - split.
    + intros r r' Hr Hr' Ht Hv.
      rewrite !elem_of_cons in Hr, Hr'.
      destruct Hr as [->|[->|[->|Hr]]]; try (now apply elem_of_nil in Hr);
        destruct Hr' as [->|[->|[->|Hr']]];
        try (now apply elem_of_nil in Hr'); simpl in *;
        congruence || lia.
    + intros r Hr Hv. rewrite !elem_of_cons in Hr.
      destruct Hr as [->|[->|[->|Hr]]]; try (now apply elem_of_nil in Hr);
        simpl in *; congruence || lia.
  - apply (Permutation_cons_append [_; _]).
Defined.


(** ** The life of a pending request *)

(** X11. A record leaves the pending table in one way only: a response that
    names it, passes the handler's test and brings the number of recorded
    replicas to the quorum; the handler then sends what the finalizer sends
    for the record with that response recorded.  No local message, no
    sub-request, no read repair and no response to another request removes
    it. *)
Theorem record_removed_only_by_quorum
    (self : StorageNode) (ev : Event) (self' : StorageNode)
    (out : list Action) (request_id : Z) (pending : PendingRequest.t) :
  handle self ev = Some (self', out) ->
  _pending_requests self !! request_id = Some pending ->
  _pending_requests self' !! request_id = None ->
  exists msg sender op replica c,
    ev = Peer msg sender
    /\ response_of msg = Some (op, request_id, replica, c)
    /\ accepted op pending = true
    /\ quorum_reached
         (PendingRequest.set_responses
            (dict_set replica c (PendingRequest.responses pending)) pending)
       = true
    /\ out = finalizer_output op
               (PendingRequest.set_responses
                  (dict_set replica c (PendingRequest.responses pending))
                  pending).
Proof.
  intros H Hp Hnone.
  destruct (handle_table _ _ _ _ request_id H)
    as [_ [Hsame|[(_ & _ & msg & now & reps & _ & Hnew)
                 |(msg & sender & op & replica & c & p0 & -> & Hr & Hp0 & Ha
                   & Hrec)]]].
  - congruence.
  - congruence.
  - assert (p0 = pending) as -> by congruence.
    exists msg, sender, op, replica, c. cbv zeta in Hrec.
    destruct (quorum_reached _); destruct Hrec as [Hrec Hout].
    + split_and!; done.
    + congruence.
Qed.

Lemma record_removed_only_by_quorum_witness :
  exists msg sender op replica c,
    Peer (REPLICA_GET_RESP "x" None (-1) 0 "0") "0" = Peer msg sender
    /\ response_of msg = Some (op, 0, replica, c)
    /\ [SendLocal (GET_RESP "x" None)]
       = finalizer_output op
           (PendingRequest.set_responses [(replica, c)]
              (PendingRequest.mk OpGET "x" None ["0"; "1"; "2"] 1 [] 7 None)).
Proof.
  destruct (record_removed_only_by_quorum example_node
              (Peer (REPLICA_GET_RESP "x" None (-1) 0 "0") "0")
              (set_pending_requests ∅ example_node)
              [SendLocal (GET_RESP "x" None)] 0
              (PendingRequest.mk OpGET "x" None ["0"; "1"; "2"] 1 [] 7 None))
    as (msg & sender & op & replica & c & H1 & H2 & _ & _ & H5).
  - vm_compute. reflexivity.
  - reflexivity.
  - reflexivity.
  - exists msg, sender, op, replica, c. split_and!; assumption.
Defined.

Lemma request_handlers_send_no_reply self msg sender self' out m :
  response_of msg = None ->
  on_message self msg sender = Some (self', out) ->
  SendLocal m ∉ out.
Proof.
  intros Hr H Hin.
  destruct msg; simpl in Hr, H; try discriminate;
    try (injection H as <- <-; now apply elem_of_nil in Hin);
    unfold _handle_replica_get_req, _handle_replica_put_req,
      _handle_replica_delete_req, _handle_replica_read_repair in H;
    destruct (data_get (_data self) key) as [cv ct];
    try destruct (should_update _ _ _ _);
    injection H as <- <-;
    try (now apply elem_of_nil in Hin);
    apply list_elem_of_singleton in Hin; discriminate.
Qed.

Lemma finalizer_output_replies op pending m :
  SendLocal m ∈ finalizer_output op pending
  <-> m = reply op (PendingRequest.key pending)
            (best_cell (PendingRequest.responses pending)).1.
Proof.
  destruct op; simpl; rewrite ?elem_of_app, !list_elem_of_singleton.
  - split; [|intros ->; now right].
    intros [Hin|[= ->]]; [|reflexivity].
    unfold repairs in Hin. rewrite list_elem_of_In, in_flat_map in Hin.
    destruct Hin as ([k c] & _ & Hin). simpl in Hin.
    destruct (needs_repair _ c); simpl in Hin; [|contradiction].
    destruct Hin as [[=]|[]].
  - split; [intros [= ->] | intros ->]; reflexivity.
  - split; [intros [= ->] | intros ->]; reflexivity.
Qed.

(** X12. A handler sends a reply to the client only when it completes a
    pending request: the event is then a response that brings the record to
    its quorum, the record is removed, and the reply is the only one sent,
    for the key of that record with the value of the winner.  Creating a
    request, serving a sub-request or a read repair, and recording a response
    below the quorum never reply to the client. *)
Theorem client_reply_only_on_completion
    (self : StorageNode) (ev : Event) (self' : StorageNode)
    (out : list Action) (m : Message) :
  handle self ev = Some (self', out) ->
  SendLocal m ∈ out ->
  exists msg sender op request_id replica c pending,
    ev = Peer msg sender
    /\ response_of msg = Some (op, request_id, replica, c)
    /\ _pending_requests self !! request_id = Some pending
    /\ accepted op pending = true
    /\ _pending_requests self' !! request_id = None
    /\ m = reply op (PendingRequest.key pending)
             (best_cell (dict_set replica c
                           (PendingRequest.responses pending))).1
    /\ forall m', SendLocal m' ∈ out -> m' = m.
Proof.
  intros H Hin. destruct ev as [msg now|msg sender]; simpl in H.
  - exfalso. rewrite on_local_message_client in H. unfold handle_client in H.
    destruct (client_operation msg) as [[[op key] q]|].
    + destruct (get_key_replicas key (_node_count self)); [|discriminate].
      injection H as <- <-.
      apply list_elem_of_fmap in Hin as (? & [=] & _).
    + injection H as <- <-. now apply elem_of_nil in Hin.
  - destruct (response_of msg) as [[[[op rid] replica] c]|] eqn:Hr.
    + rewrite (on_message_response _ sender self _ _ _ _ Hr) in H.
      destruct (_pending_requests self !! rid) as [p|] eqn:Hl.
      * destruct (accepted op p) eqn:Ha.
        -- rewrite (handle_response_accepted _ _ _ _ _ _ Hl Ha) in H.
           destruct (quorum_reached _); injection H as <- <-.
           ++ exists msg, sender, op, rid, replica, c, p.
              apply finalizer_output_replies in Hin. simpl in Hin.
              split_and!; try done.
              ** simpl. apply lookup_delete_eq.
              ** intros m' Hin'. apply finalizer_output_replies in Hin'.
                 simpl in Hin'. congruence.
           ++ now apply elem_of_nil in Hin.
        -- rewrite (handle_response_rejected _ _ _ _ _ _ Hl Ha) in H.
           injection H as <- <-. now apply elem_of_nil in Hin.
      * rewrite (handle_response_unknown _ _ _ _ _ Hl) in H.
        injection H as <- <-. now apply elem_of_nil in Hin.
    + exfalso.
      exact (request_handlers_send_no_reply _ _ _ _ _ _ Hr H Hin).
Qed.

Lemma client_reply_only_on_completion_witness :
  exists msg sender op request_id replica c pending,
    Peer (REPLICA_GET_RESP "x" (Some "b") 4 0 "1") "1" = Peer msg sender
    /\ response_of msg = Some (op, request_id, replica, c)
    /\ GET_RESP "x" (Some "b")
       = reply op (PendingRequest.key pending)
           (best_cell (dict_set replica c
                         (PendingRequest.responses pending))).1.
Proof.
  destruct (client_reply_only_on_completion
              (set_pending_requests
                 {[ 0 := PendingRequest.mk OpGET "x" None ["0"; "1"; "2"] 2
                           [("0", (Some "a", 2))] 7 None ]}
                 example_waiting)
              (Peer (REPLICA_GET_RESP "x" (Some "b") 4 0 "1") "1")
              (set_pending_requests ∅ example_waiting)
              [ Send (REPLICA_READ_REPAIR "x" (Some "b") 4) "0";
                SendLocal (GET_RESP "x" (Some "b")) ]
              (GET_RESP "x" (Some "b")))
    as (msg & sender & op & rid & replica & c & p & H1 & H2 & _ & _ & _ & H6
        & _).
  - vm_compute. reflexivity.
  - set_solver.
  - exists msg, sender, op, rid, replica, c, p. split_and!; assumption.
Defined.

(** X16. A response changes nothing but the record it names: the records
    of all other requests, the request counter and the store are as before,
    and when the response is unknown or rejected the whole node is. *)
Theorem response_touches_only_its_record
    (self : StorageNode) (msg : Message) (sender : NodeId) (op : Operation)
    (request_id : Z) (replica : NodeId) (c : Cell) :
  response_of msg = Some (op, request_id, replica, c) ->
  exists self' out,
    on_message self msg sender = Some (self', out)
    /\ (forall other,
          other <> request_id ->
          _pending_requests self' !! other = _pending_requests self !! other)
    /\ _request_counter self' = _request_counter self
    /\ _data self' = _data self
    /\ ((_pending_requests self !! request_id = None
         \/ exists pending,
              _pending_requests self !! request_id = Some pending
              /\ accepted op pending = false) ->
        self' = self /\ out = []).
Proof.
  intros Hr. rewrite (on_message_response _ sender self _ _ _ _ Hr).
  destruct (_pending_requests self !! request_id) as [p|] eqn:Hl.
  - destruct (accepted op p) eqn:Ha.
    + rewrite (handle_response_accepted _ _ _ _ _ _ Hl Ha).
      destruct (quorum_reached _); eexists _, _;
        (split; [reflexivity|]); simpl; split_and!; try reflexivity.
      * intros other Hne. apply lookup_delete_ne. congruence.
      * intros [?|(p' & [= <-] & ?)]; congruence.
      * intros other Hne. apply lookup_insert_ne. congruence.
      * intros [?|(p' & [= <-] & ?)]; congruence.
    + rewrite (handle_response_rejected _ _ _ _ _ _ Hl Ha).
      eexists _, _. split; [reflexivity|]. split_and!; try reflexivity.
      intros _. split; reflexivity.
  - rewrite (handle_response_unknown _ _ _ _ _ Hl).
    eexists _, _. split; [reflexivity|]. split_and!; try reflexivity.
    intros _. split; reflexivity.
Qed.

Lemma response_touches_only_its_record_witness :
  exists self' out,
    on_message example_waiting (REPLICA_PUT_RESP "x" (Some "b") 4 0 "1") "1"
    = Some (self', out)
    /\ self' = example_waiting /\ out = [].
Proof.
  destruct (response_touches_only_its_record example_waiting
              (REPLICA_PUT_RESP "x" (Some "b") 4 0 "1") "1" OpPUT 0 "1"
              (Some "b", 4) eq_refl)
    as (self' & out & H & _ & _ & _ & Hdrop).
  exists self', out. split; [exact H|]. apply Hdrop. right.
  eexists. split; reflexivity.
Defined.

(** ** What every reached node satisfies *)

Lemma handle_configuration self ev self' out :
  handle self ev = Some (self', out) ->
  _id self' = _id self
  /\ _nodes self' = _nodes self
  /\ _node_count self' = _node_count self
  /\ _request_counter self'
     = _request_counter self + (if is_client_request ev then 1 else 0).
Proof.
  destruct ev as [msg now|msg sender]; simpl.
  - rewrite on_local_message_client. unfold handle_client.
    destruct (client_operation msg) as [[[op key] q]|];
      [destruct (get_key_replicas key (_node_count self)); [|discriminate]|];
      intros [= <- <-]; simpl; split_and!; try reflexivity; lia.
  - destruct (response_of msg) as [[[[op rid] replica] c]|] eqn:Hr.
    + rewrite (on_message_response _ sender self _ _ _ _ Hr).
      destruct (_pending_requests self !! rid) as [p|] eqn:Hl.
      * destruct (accepted op p) eqn:Ha.
        -- rewrite (handle_response_accepted _ _ _ _ _ _ Hl Ha).
           destruct (quorum_reached _); intros [= <- <-]; simpl;
             split_and!; try reflexivity; lia.
        -- rewrite (handle_response_rejected _ _ _ _ _ _ Hl Ha).
           intros [= <- <-]. split_and!; try reflexivity; lia.
      * rewrite (handle_response_unknown _ _ _ _ _ Hl).
        intros [= <- <-]. split_and!; try reflexivity; lia.
    + destruct msg; simpl in Hr |- *; try discriminate;
        try (intros [= <- <-]; split_and!; try reflexivity; lia);
        unfold _handle_replica_get_req, _handle_replica_put_req,
          _handle_replica_delete_req, _handle_replica_read_repair;
        destruct (data_get (_data self) key) as [cv ct];
        try destruct (should_update _ _ _ _);
        intros [= <- <-]; simpl; split_and!; try reflexivity; lia.
Qed.

Lemma client_requests_cons ev evs :
  client_requests (ev :: evs)
  = ((if is_client_request ev then 1 else 0) + client_requests evs)%nat.
Proof.
  unfold client_requests. destruct (is_client_request ev) eqn:E.
  - rewrite filter_cons_True by exact E. reflexivity.
  - rewrite filter_cons_False by congruence. reflexivity.
Qed.

Lemma run_configuration evs : forall self self' out,
  run self evs = Some (self', out) ->
  _id self' = _id self
  /\ _nodes self' = _nodes self
  /\ _node_count self' = _node_count self
  /\ _request_counter self'
     = _request_counter self + Z.of_nat (client_requests evs).
Proof.
  induction evs as [|ev evs IH]; simpl; intros self self' out H.
  - injection H as <- <-. split_and!; try reflexivity.
    unfold client_requests; simpl. lia.
  - destruct (handle self ev) as [[s1 o1]|] eqn:Hh; [|discriminate].
    destruct (run s1 evs) as [[s2 o2]|] eqn:Hr; [|discriminate].
    injection H as <- <-.
    destruct (handle_configuration _ _ _ _ Hh) as (A1 & A2 & A3 & A4).
    destruct (IH _ _ _ Hr) as (B1 & B2 & B3 & B4).
    rewrite client_requests_cons.
    split_and!; try congruence.
    rewrite B4, A4. destruct (is_client_request ev); lia.
Qed.

(** X13. Whatever events a node has handled since it was constructed, its
    name, node list and node count are those of the constructor, its request
    counter is the number of client requests it has accepted, every pending
    request id is one of the ids handed out so far, every [responses] dict
    has one slot per replica, and a pending record that has answers has
    fewer of them than its quorum. *)
Theorem reached_node_invariant
    (node_id : NodeId) (nodes : list NodeId) (evs : list Event)
    (self : StorageNode) (out : list Action) :
  run (init node_id nodes) evs = Some (self, out) ->
  _id self = node_id
  /\ _nodes self = sorted nodes
  /\ _node_count self = Z.of_nat (length nodes)
  /\ _request_counter self = Z.of_nat (client_requests evs)
  /\ forall request_id pending,
       _pending_requests self !! request_id = Some pending ->
       0 <= request_id < Z.of_nat (client_requests evs)
       /\ NoDup (PendingRequest.responses pending).*1
       /\ (PendingRequest.responses pending = []
           \/ Z.of_nat (length (PendingRequest.responses pending))
              < PendingRequest.quorum pending).
Proof.
  intros H.
  destruct (run_configuration _ _ _ _ H) as (H1 & H2 & H3 & H4).
  destruct (wf_run _ _ _ _ (wf_init node_id nodes) H) as [_ Hwf].
  simpl in H1, H2, H3, H4. rewrite sorted_length in H3.
  split_and!; try assumption.
  intros rid p Hp. destruct (Hwf _ _ Hp) as (Hr & Hn & Hq).
  split; [lia|]. split; [exact Hn|].
  destruct Hq as [Hq|Hq]; [now left | right].
  unfold quorum_reached in Hq.
  destruct (Z.geb_spec (Z.of_nat (length (PendingRequest.responses p)))
              (PendingRequest.quorum p)); [discriminate | lia].
Qed.

Lemma reached_node_invariant_witness :
  _request_counter example_waiting = 1
  /\ _node_count example_waiting = 3.
Proof.
  destruct (reached_node_invariant "0" ["0"; "1"; "2"]
              [ Local (GET "x" 3) 7;
                Peer (REPLICA_GET_RESP "x" (Some "a") 2 0 "0") "0" ]
              example_waiting
              [ Send (REPLICA_GET_REQ "x" 0 "0") "0";
                Send (REPLICA_GET_REQ "x" 0 "0") "1";
                Send (REPLICA_GET_REQ "x" 0 "0") "2" ])
    as (_ & _ & H3 & H4 & _).
  - vm_compute. reflexivity.
  - split; [exact H4 | exact H3].
Defined.

(** X14. A client request is filed under an id that no pending request
    holds, so it overwrites nothing: every request that was pending is still
    pending with the same record, the table has grown by exactly the new id,
    the store is untouched, and nothing is sent to the client. *)
Theorem new_request_keeps_pending_requests
    (self : StorageNode) (msg : Message) (now : Timestamp)
    (self' : StorageNode) (out : list Action)
    (op : Operation) (key : Key) (q : Z) :
  wf self ->
  client_operation msg = Some (op, key, q) ->
  on_local_message self msg now = Some (self', out) ->
  _pending_requests self !! _request_counter self = None
  /\ (forall request_id pending,
        _pending_requests self !! request_id = Some pending ->
        _pending_requests self' !! request_id = Some pending)
  /\ dom (_pending_requests self')
     = {[_request_counter self]} ∪ dom (_pending_requests self)
  /\ _data self' = _data self
  /\ forall m, SendLocal m ∉ out.
Proof.
  intros [_ Hwf] Hop H.
  assert (Hfresh : _pending_requests self !! _request_counter self = None).
  { destruct (_pending_requests self !! _request_counter self) as [p|] eqn:E;
      [|reflexivity].
    destruct (Hwf _ _ E). lia. }
  rewrite on_local_message_client in H. unfold handle_client in H.
  rewrite Hop in H.
  destruct (get_key_replicas key (_node_count self)); [|discriminate].
  injection H as <- <-. simpl.
  split_and!; try done.
  - intros rid p Hp. rewrite lookup_insert_ne; [exact Hp|]. congruence.
  - apply dom_insert_L.
  - intros m Hin. apply list_elem_of_fmap in Hin as (? & [=] & _).
Qed.

Lemma new_request_keeps_pending_requests_witness :
  exists self' out,
    on_local_message example_waiting (PUT "y" "v" 2) 8 = Some (self', out)
    /\ _pending_requests self' !! 0
       = Some (PendingRequest.mk OpGET "x" None ["0"; "1"; "2"] 3
                 [("0", (Some "a", 2))] 7 None).
Proof.
  eexists _, _. split; [vm_compute; reflexivity|].
  refine (proj1 (proj2
    (new_request_keeps_pending_requests example_waiting (PUT "y" "v" 2) 8
       _ _ OpPUT "y" 2 example_waiting_wf eq_refl _)) 0 _ _).
  - vm_compute. reflexivity.
  - reflexivity.
Defined.

(** ** Operation tags in a system of nodes *)

Lemma agrees_step self ev self' out request_id op :
  request_id < _request_counter self ->
  agrees self request_id op ->
  handle self ev = Some (self', out) ->
  agrees self' request_id op.
Proof.
  intros Hlt Hag H p' Hp'.
  destruct (handle_table _ _ _ _ request_id H)
    as [_ [Hsame|[(-> & _)
                 |(msg & sender & op' & replica & c & p0 & _ & _ & Hp0 & _
                   & Hrec)]]].
  - apply Hag. congruence.
  - lia.
  - cbv zeta in Hrec. destruct (quorum_reached _); destruct Hrec as [Hrec _];
      [congruence|].
    rewrite Hrec in Hp'. injection Hp' as <-. simpl. now apply Hag.
Qed.

Lemma client_sends_operation self msg now self' out m d :
  on_local_message self msg now = Some (self', out) ->
  Send m d ∈ out ->
  exists op pending,
    sub_request_operation m = Some op
    /\ _pending_requests self' !! _request_counter self = Some pending
    /\ PendingRequest.operation pending = op.
Proof.
  rewrite on_local_message_client. unfold handle_client.
  destruct (client_operation msg) as [[[op key] q]|] eqn:Hop.
  - destruct (get_key_replicas key (_node_count self)) as [replicas|];
      [|discriminate].
    intros [= <- <-] Hin.
    apply list_elem_of_fmap in Hin as (replica & [= -> ->] & Hin).
    exists op, (new_pending msg replicas now). simpl.
    split_and!.
    + destruct msg; simpl in Hop; try discriminate; injection Hop as <- _ _;
        reflexivity.
    + apply lookup_insert_eq.
    + destruct msg; simpl in Hop; try discriminate; injection Hop as <- _ _;
        reflexivity.
  - intros [= <- <-] Hin. now apply elem_of_nil in Hin.
Qed.

Lemma peer_response_operation self msg sender self' out m d op r replica c :
  on_message self msg sender = Some (self', out) ->
  Send m d ∈ out ->
  response_of m = Some (op, r, replica, c) ->
  sub_request_operation msg = Some op.
Proof.
  intros H Hin Hm.
  destruct (response_of msg) as [[[[op0 rid] replica0] c0]|] eqn:Hr.
  - rewrite (on_message_response _ sender self _ _ _ _ Hr) in H.
    destruct (handle_response_sends _ _ _ _ _ _ _ _ _ H Hin)
      as (k & v & t & ->).
    discriminate.
  - destruct msg; simpl in Hr, H; try discriminate;
      try (injection H as <- <-; now apply elem_of_nil in Hin);
      unfold _handle_replica_get_req, _handle_replica_put_req,
        _handle_replica_delete_req, _handle_replica_read_repair in H;
      destruct (data_get (_data self) key) as [cv ct];
      try destruct (should_update _ _ _ _);
      injection H as <- <-;
      try (now apply elem_of_nil in Hin);
      apply list_elem_of_singleton in Hin; injection Hin as -> ->;
      simpl in Hm; injection Hm as <- _ _ _; reflexivity.
Qed.

Lemma tags_agree_step sys ch sys' :
  sys_inv sys -> tags_agree sys -> sys_step sys ch = Some sys' ->
  tags_agree sys'.
Proof.
  intros (Hnodes & Hreq & Hresp) [Hsub Hans] Hstep.
  destruct (sys_step_inv _ _ _ Hstep)
    as (n & self & ev & self' & out & Hn & Hh & -> & Hev).
  destruct (Hnodes _ _ Hn) as [Hid Hwf].
  assert (Hafter : forall x r op sx,
            (forall s0, sys_nodes sys !! x = Some s0 -> agrees s0 r op) ->
            (exists s0, sys_nodes sys !! x = Some s0
                        /\ r < _request_counter s0) ->
            <[n := self']> (sys_nodes sys) !! x = Some sx ->
            agrees sx r op).
  { intros x r op sx Hag (s0 & Hs0 & Hlt) Hx.
    destruct (decide (n = x)) as [->|Hne].
    - rewrite lookup_insert_eq in Hx. injection Hx as <-.
      assert (s0 = self) as -> by congruence.
      exact (agrees_step _ _ _ _ _ _ Hlt (Hag _ Hn) Hh).
    - rewrite lookup_insert_ne in Hx by assumption. now apply Hag. }
  split; simpl.
  - intros p x r op sx Hin Hs Hop Hx. apply elem_of_app in Hin as [Hin|Hin].
    + apply (Hafter x r op sx); [|exact (Hreq _ _ _ Hin Hs)|exact Hx].
      intros s0 Hs0. exact (Hsub _ _ _ _ _ Hin Hs Hop Hs0).
    + apply elem_of_packets in Hin as (m & d & Hin & ->). simpl in Hs, Hop.
      destruct ev as [msg now|msg sender]; simpl in Hh.
      * destruct (client_sends _ _ _ _ _ _ _ Hh Hin) as (Hs' & _).
        destruct (client_sends_operation _ _ _ _ _ _ _ Hh Hin)
          as (op' & p' & Hop' & Hp' & Hopp).
        rewrite Hs', Hid in Hs. injection Hs as <- <-.
        rewrite lookup_insert_eq in Hx. injection Hx as <-.
        intros p0 Hp0. congruence.
      * destruct (peer_sends _ _ _ _ _ _ _ Hh Hin) as [Hnone _]. congruence.
  - intros p op r replica c sx Hin Hr Hx.
    apply elem_of_app in Hin as [Hin|Hin].
    + apply (Hafter (dst p) r op sx);
        [|exact (Hresp _ _ _ _ _ Hin Hr)|exact Hx].
      intros s0 Hs0. exact (Hans _ _ _ _ _ _ Hin Hr Hs0).
    + apply elem_of_packets in Hin as (m & d & Hin & ->). simpl in Hr, Hx.
      destruct ev as [msg now|msg sender]; simpl in Hh.
      * destruct (client_sends _ _ _ _ _ _ _ Hh Hin) as (_ & Hnone & _).
        congruence.
      * destruct (peer_sends _ _ _ _ _ _ _ Hh Hin) as [_ Hs].
        destruct (Hs _ _ _ _ Hr) as [_ Hsubreq].
        pose proof (peer_response_operation _ _ _ _ _ _ _ _ _ _ _ Hh Hin Hr)
          as Hop.
        destruct Hev as (p0 & Hp0 & _ & Hpay).
        rewrite <- Hpay in Hsubreq, Hop.
        apply (Hafter d r op sx);
          [|exact (Hreq _ _ _ Hp0 Hsubreq)|exact Hx].
        intros s0 Hs0. exact (Hsub _ _ _ _ _ Hp0 Hsubreq Hop Hs0).
Qed.

Lemma tags_agree_run chs : forall sys sys',
  sys_inv sys -> tags_agree sys -> sys_run sys chs = Some sys' ->
  tags_agree sys'.
Proof.
  induction chs as [|ch chs IH]; simpl; intros sys sys' Hinv Hag H.
  - now injection H as <-.
  - destruct (sys_step sys ch) as [sys1|] eqn:Hs; [|discriminate].
    exact (IH _ _ (sys_inv_step _ _ _ Hinv Hs)
             (tags_agree_step _ _ _ Hinv Hag Hs) H).
Qed.

(** X15. In a system of nodes that run this code, under any schedule of
    client requests and deliveries, a response in transit that names a
    pending request of its destination carries the operation of that
    request: the operation test of [_handle_replica_put_resp] and
    [_handle_replica_delete_resp] never rejects such a response, and
    [_handle_replica_get_resp] never meets the record of a PUT or a
    DELETE. *)
Theorem response_tags_agree_in_a_system
    (names : list NodeId) (chs : list Choice) (sys : System)
    (p : Packet) (op : Operation) (r : Z) (replica : NodeId) (c : Cell)
    (self : StorageNode) (pending : PendingRequest.t) :
  sys_run (sys_init names) chs = Some sys ->
  p ∈ sys_sent sys ->
  response_of (payload p) = Some (op, r, replica, c) ->
  sys_nodes sys !! dst p = Some self ->
  _pending_requests self !! r = Some pending ->
  PendingRequest.operation pending = op /\ accepted op pending = true.
Proof.
  intros Hrun Hin Hr Hn Hp.
  assert (Hinit : tags_agree (sys_init names)).
  { split; simpl; intros; exfalso; eapply not_elem_of_nil; eassumption. }
  destruct (tags_agree_run chs _ _ (sys_inv_init names) Hinit Hrun)
    as [_ Hans].
  pose proof (Hans _ _ _ _ _ _ Hin Hr Hn _ Hp) as Hop.
  split; [exact Hop|]. unfold accepted. rewrite Hop. now destruct op.
Qed.

Lemma response_tags_agree_in_a_system_witness :
  exists sys self pending,
    sys_run (sys_init ["0"; "1"; "2"])
      [Client "0" (PUT "x" "v" 3) 1; Deliver 0; Deliver 1] = Some sys
    /\ sys_nodes sys !! "0" = Some self
    /\ _pending_requests self !! 0 = Some pending
    /\ PendingRequest.operation pending = OpPUT.
Proof.
  eexists _, _, _.
  split; [vm_compute; reflexivity|].
  split; [vm_compute; reflexivity|].
  split; [vm_compute; reflexivity|].
  refine (proj1 (response_tags_agree_in_a_system ["0"; "1"; "2"]
                   [Client "0" (PUT "x" "v" 3) 1; Deliver 0; Deliver 1] _
                   (mkPacket "0" "1" (REPLICA_PUT_RESP "x" (Some "v") 1 0 "1"))
                   OpPUT 0 "1" (Some "v", 1) _ _ _ _ eq_refl _ _)).
  - vm_compute. reflexivity.
  - simpl. set_solver.
  - vm_compute. reflexivity.
  - vm_compute. reflexivity.
Defined.
